(** * Beacon-chain state transition (atc_chain/state/state_transition.py)

    A shallow embedding of the state-transition core: attestation
    validation, block processing, the cycle engine (justification,
    finality, crosslinks), the reward engine, the dynasty engine and the
    driver, together with the properties the specification states about
    them.

    Conventions.
    - Python [int] is [Z]; [//] and [%] are [Z.div] and [Z.modulo]
      (both floor, like Python's), with division by zero raising.
    - Validator indices and shard ids are positions in Python lists and
      are unsigned on the wire: they are [nat].
    - [bytes] is [list byte]; a dict is a [gmap], a set a [gset]; a dict
      whose iteration order is observable is an association list.
    - A Python exception is [Err e]; a function that may raise returns
      [result A].  [deepcopy] is the identity on values.
    - The [while] loop of [compute_cycle_transitions] takes fuel; running
      out of fuel is [None].
    - A Python [float] is an IEEE 754 binary64 value, a [spec_float] of
      precision 53 and maximal exponent 1024; [int / int] is the
      correctly rounded quotient, and [float ** int] is the C library's
      [pow], which is part of the external interface. *)

From Stdlib Require Import ZArith Lia Strings.Byte Floats.SpecFloat.
From stdpp Require Import gmap list.

Local Open Scope Z_scope.

(** ** Exceptions and the error monad *)

Inductive exn : Type :=
  | ValidationError
  | KeyError
  | IndexError
  | AssertionError
  | ZeroDivisionError
  | ValueError
  | OverflowError.

Inductive result (A : Type) : Type :=
  | Ok (a : A)
  | Err (e : exn).

Arguments Ok {A} a.
Arguments Err {A} e.

Definition bind {A B : Type} (m : result A) (f : A -> result B) : result B :=
  match m with
  | Ok a => f a
  | Err e => Err e
  end.

Notation "'let*' x ':=' m 'in' k" := (bind m (fun x => k))
  (at level 10, x pattern, m at level 100, k at level 200).

Definition is_ok {A} (r : result A) : bool :=
  match r with Ok _ => true | Err _ => false end.

(** [assert c] *)
Definition py_assert (c : bool) : result unit :=
  if c then Ok tt else Err AssertionError.

(** [if not c: raise ValidationError(...)] *)
Definition require (c : bool) : result unit :=
  if c then Ok tt else Err ValidationError.

(** [l[i]] for an unsigned index. *)
Definition getitem {A} (l : list A) (i : nat) : result A :=
  match l !! i with
  | Some x => Ok x
  | None => Err IndexError
  end.

(** [a // b] *)
Definition floordiv (a b : Z) : result Z :=
  if b =? 0 then Err ZeroDivisionError else Ok (a / b).

(** [a % b] *)
Definition pymod (a b : Z) : result Z :=
  if b =? 0 then Err ZeroDivisionError else Ok (a mod b).

(** A [for] loop whose body may raise: the state is threaded through the
    elements in order and the first exception ends the loop. *)
Fixpoint foldM {A S : Type} (f : S -> A -> result S) (s : S) (l : list A)
  : result S :=
  match l with
  | [] => Ok s
  | x :: l' => let* s' := f s x in foldM f s' l'
  end.

(** A list comprehension whose element expression may raise. *)
Fixpoint mapM {A B : Type} (f : A -> result B) (l : list A) : result (list B) :=
  match l with
  | [] => Ok []
  | x :: l' => let* y := f x in let* ys := mapM f l' in Ok (y :: ys)
  end.

(** [range(a, b)] *)
Definition zrange (a b : Z) : list Z :=
  (fun i : nat => a + Z.of_nat i) <$> seq 0 (Z.to_nat (b - a)).

(** [enumerate(l)] *)
Definition enumerate {A} (l : list A) : list (nat * A) :=
  imap (fun i x => (i, x)) l.

(** [l[k:]] with Python's treatment of a negative or too large [k]. *)
Definition slice_from {A} (l : list A) (k : Z) : list A :=
  if k <? 0
  then drop (Z.to_nat (Z.of_nat (length l) + k)) l
  else drop (Z.to_nat k) l.

(** [sum(l)] *)
Definition zsum (l : list Z) : Z := foldr Z.add 0 l.

(** ** Bytes *)

#[global] Instance byte_eq_dec : EqDecision byte := Byte.byte_eq_dec.

#[global] Instance byte_countable : Countable byte :=
  inj_countable Byte.to_N Byte.of_N Byte.of_to_N.

Abbreviation bytes := (list byte).
Abbreviation Hash32 := (list byte).

Definition byte_of_Z (z : Z) : byte :=
  default "000"%byte (Byte.of_N (Z.to_N (z mod 256))).

Definition Z_of_byte (b : byte) : Z := Z.of_N (Byte.to_N b).

Fixpoint big_endian (len : nat) (z : Z) : bytes :=
  match len with
  | O => []
  | S k => big_endian k (z / 256) ++ [byte_of_Z z]
  end.

(** [z.to_bytes(len, 'big')]: unsigned, raising [OverflowError] outside
    [0 .. 256^len). *)
Definition to_bytes (z : Z) (len : nat) : result bytes :=
  if (0 <=? z) && (z <? 256 ^ Z.of_nat len)
  then Ok (big_endian len z)
  else Err OverflowError.

(** ** Data model *)

Record ValidatorRecord : Type := {
  pubkey : Z;
  balance : Z;
  start_dynasty : Z;
  end_dynasty : Z
}.

Record CrosslinkRecord : Type := {
  dynasty : Z;
  crosslink_slot : Z;
  crosslink_hash : Hash32
}.

Record ShardAndCommittee : Type := {
  sc_shard_id : nat;
  committee : list nat
}.

Record AttestationRecord : Type := {
  slot : Z;
  shard_id : nat;
  oblique_parent_hashes : list Hash32;
  shard_block_hash : Hash32;
  attester_bitfield : bytes;
  justified_slot : Z;
  justified_block_hash : Hash32;
  aggregate_sig : list Z
}.

Record Block : Type := {
  parent_hash : Hash32;
  slot_number : Z;
  attestations : list AttestationRecord;
  randao_reveal : Hash32;
  pow_chain_ref : Hash32;
  active_state_root : Hash32;
  crystallized_state_root : Hash32
}.

Record Chain : Type := {
  chain_head : option Block;
  blocks : list Block
}.

(** One entry of the block vote cache. *)
Record VoteCacheEntry : Type := {
  voter_indices : gset nat;
  total_voter_deposits : Z
}.

Abbreviation BlockVoteCache := (gmap (list byte) VoteCacheEntry).

Record CrystallizedState : Type := {
  validators : list ValidatorRecord;
  last_state_recalc : Z;
  shard_and_committee_for_slots : list (list ShardAndCommittee);
  last_justified_slot : Z;
  justified_streak : Z;
  last_finalized_slot : Z;
  current_dynasty : Z;
  crosslink_records : list CrosslinkRecord;
  dynasty_seed : Hash32;
  dynasty_start : Z
}.

Record ActiveState : Type := {
  pending_attestations : list AttestationRecord;
  recent_block_hashes : list Hash32;
  block_vote_cache : BlockVoteCache;
  chain : Chain
}.

(** The keys of the configuration dictionary the core reads. *)
Record Config : Type := {
  cycle_length : Z;
  min_dynasty_length : Z;
  shard_count : Z;
  base_reward_quotient : Z;
  sqrt_e_drop_time : Z;
  slot_duration : Z
}.

Definition WEI_PER_ETH : Z := 10 ^ 18.

(** ** Python floats

    [get_reward_context] computes one value in floating point.  A [float]
    is a binary64 value; the operations below are those of CPython on
    it. *)

Definition float_prec : Z := 53.
Definition float_emax : Z := 1024.

(** [a / b] on two [int]s: the quotient of the two integers rounded once,
    to nearest with ties to even, whatever their size; a zero divisor
    raises [ZeroDivisionError] and a quotient that rounds past the
    largest float raises [OverflowError].  A quotient too small for a
    float is a zero, with the sign of the quotient. *)
Definition int_true_divide (a b : Z) : result spec_float :=
  match b, a with
  | Z0, _ => Err ZeroDivisionError
  | _, Z0 => Ok (S754_zero (b <? 0))
  | _, _ =>
      match SFdiv float_prec float_emax
              (S754_finite (a <? 0) (Z.to_pos (Z.abs a)) 0)
              (S754_finite (b <? 0) (Z.to_pos (Z.abs b)) 0) with
      | S754_infinity _ | S754_nan => Err OverflowError
      | q => Ok q
      end
  end.

(** [x.is_integer()] *)
Definition float_is_integer (x : spec_float) : bool :=
  match x with
  | S754_zero _ => true
  | S754_finite _ m e => (0 <=? e) || (Z.pos m mod 2 ^ (- e) =? 0)
  | S754_infinity _ | S754_nan => false
  end.

(** [int(x)]: the integer part, toward zero; an infinity raises
    [OverflowError] and a NaN [ValueError]. *)
Definition int_of_float (x : spec_float) : result Z :=
  match x with
  | S754_zero _ => Ok 0
  | S754_finite s m e =>
      let n := if 0 <=? e then Z.pos m * 2 ^ e else Z.pos m / 2 ^ (- e) in
      Ok (if s then - n else n)
  | S754_infinity _ => Err OverflowError
  | S754_nan => Err ValueError
  end.

(** ** External collaborators

    The BLS primitives, the digest, block hashing, the shuffler, the
    canonical-chain lookups and the reconstruction of the signed parent
    hashes live outside [state_transition.py]; the transition only calls
    them.  So does the power of a float, [x ** n]: CPython hands it to
    the C library's [pow], whose rounding is the library's own (the
    square of a float is not always the correctly rounded product: one
    that falls halfway between two floats need not go to the even
    neighbour), and raises [OverflowError] when the result is out of
    range.  They are an interface here. *)

Class Externals : Type := {
  (** [bls.aggregate_pubs] *)
  aggregate_pubs : list Z -> Z;
  (** [bls.verify] *)
  verify : bytes -> Z -> list Z -> bool;
  (** [blake] *)
  blake : bytes -> Hash32;
  (** [block.hash] *)
  block_hash : Block -> Hash32;
  (** [chain.get_block_by_hash] *)
  get_block_by_hash : Chain -> Hash32 -> option Block;
  (** [chain.get_block_by_slot_number] *)
  get_block_by_slot_number : Chain -> Z -> option Block;
  (** [get_signed_parent_hashes] *)
  get_signed_parent_hashes :
    Config -> ActiveState -> Block -> AttestationRecord -> result (list Hash32);
  (** [get_new_shuffling]; it is called without the configuration. *)
  get_new_shuffling :
    Hash32 -> list ValidatorRecord -> Z -> Z -> list (list ShardAndCommittee);
  (** [x ** n] on a [float] [x] and an [int] [n] *)
  float_pow : spec_float -> Z -> result spec_float
}.

(** ** Helpers (bitfield.py, helpers.py, crystallized_state.py) *)

(** Modelled from the spec: [get_bitfield_length] of [utils/bitfield.py],
    [(n + 7) / 8]. *)
Definition get_bitfield_length (bit_count : nat) : nat :=
  ((bit_count + 7) / 8)%nat.

(** Modelled from the spec: [has_voted] of [utils/bitfield.py], bit [i],
    MSB-first, of the byte [i / 8]; indexing past the end of the bitfield
    raises, as indexing [bytes] does. *)
Definition has_voted (bitfield : bytes) (index : nat) : result bool :=
  let* b := getitem bitfield (index / 8)%nat in
  Ok (negb (Z.land (Z_of_byte b) (Z.shiftr 128 (Z.of_nat (index mod 8))) =? 0)).

(** Modelled from the spec: [get_empty_bitfield] of [utils/bitfield.py],
    zero bytes of length [get_bitfield_length n]. *)
Definition get_empty_bitfield (bit_count : nat) : bytes :=
  replicate (get_bitfield_length bit_count) "000"%byte.

Definition byte_or (a b : byte) : byte :=
  byte_of_Z (Z.lor (Z_of_byte a) (Z_of_byte b)).

(** Modelled from the spec: [or_bitfields] of [utils/bitfield.py], the
    elementwise OR; the inputs must share the length of the first one. *)
Definition or_bitfields (bitfields : list bytes) : result bytes :=
  match bitfields with
  | [] => Err IndexError
  | first :: _ =>
      if forallb (fun bf => (length bf =? length first)%nat) bitfields
      then Ok (foldl (fun acc bf => zip_with byte_or bf acc)
                 (replicate (length first) "000"%byte) bitfields)
      else Err ValueError
  end.

(** Modelled from the spec: [int_sqrt] of [helpers.py], the integer floor
    of the square root. *)
Definition int_sqrt (x : Z) : Z := Z.sqrt x.

Definition is_active (dynasty : Z) (v : ValidatorRecord) : bool :=
  (start_dynasty v <=? dynasty) && (dynasty <? end_dynasty v).

(** Modelled from the spec: [get_active_validator_indices] of [helpers.py],
    the indices [i] with [start_dynasty <= dynasty < end_dynasty], in
    increasing order. *)
Definition get_active_validator_indices
    (dynasty : Z) (validators : list ValidatorRecord) : list nat :=
  fst <$> filter (fun p => is_active dynasty p.2) (enumerate validators).

(** Modelled from the spec: the derived attribute [total_deposits] of
    [crystallized_state.py], the sum of the balances of the validators
    active in [current_dynasty]. *)
Definition total_deposits (cs : CrystallizedState) : Z :=
  zsum (balance <$> filter (is_active (current_dynasty cs)) (validators cs)).

(** Modelled from the spec: [get_shards_and_committees_for_slot] of
    [helpers.py]; the slot must fall in
    [last_state_recalc - cycle_length, last_state_recalc + cycle_length). *)
Definition get_shards_and_committees_for_slot
    (config : Config) (cs : CrystallizedState) (s : Z)
  : result (list ShardAndCommittee) :=
  let earliest_slot_in_array := last_state_recalc cs - cycle_length config in
  let* _ := py_assert ((earliest_slot_in_array <=? s) &&
                 (s <? earliest_slot_in_array + cycle_length config * 2)) in
  getitem (shard_and_committee_for_slots cs)
          (Z.to_nat (s - earliest_slot_in_array)).

(** Modelled from the spec: [get_attestation_indices] of [helpers.py], the
    committee scheduled for [(att.slot, att.shard_id)]; a shard with no
    committee in that slot has the empty committee. *)
Definition get_attestation_indices
    (config : Config) (cs : CrystallizedState) (attestation : AttestationRecord)
  : result (list nat) :=
  let* scs := get_shards_and_committees_for_slot config cs (slot attestation) in
  match filter (fun x => sc_shard_id x = shard_id attestation) scs with
  | [] => Ok []
  | x :: _ => Ok (committee x)
  end.

(** Modelled from the spec: [get_new_recent_block_hashes] of [helpers.py]:
    shift left by [new_slot - parent_slot] and pad on the right with the
    parent hash, keeping the length. *)
Definition get_new_recent_block_hashes
    (old_block_hashes : list Hash32) (parent_slot current_slot : Z)
    (parent_hash : Hash32) : list Hash32 :=
  let d := current_slot - parent_slot in
  slice_from old_block_hashes d ++
  replicate (Z.to_nat (Z.min d (Z.of_nat (length old_block_hashes)))) parent_hash.

(** Modelled from the spec: [get_proposer_position] of [helpers.py]: the
    first committee scheduled for the parent's slot, and the parent's
    slot modulo its size. *)
Definition get_proposer_position
    (config : Config) (parent_block : Block) (cs : CrystallizedState)
  : result (nat * nat) :=
  let* scs :=
    get_shards_and_committees_for_slot config cs (slot_number parent_block) in
  let* sc := getitem scs 0%nat in
  let* proposer_index_in_committee :=
    pymod (slot_number parent_block) (Z.of_nat (length (committee sc))) in
  Ok (Z.to_nat proposer_index_in_committee, sc_shard_id sc).

(** A list comprehension with a condition: [f] raises, skips ([None]) or
    yields an element. *)
Fixpoint collectM {A B : Type} (f : A -> result (option B)) (l : list A)
  : result (list B) :=
  match l with
  | [] => Ok []
  | x :: l' =>
      let* o := f x in
      let* ys := collectM f l' in
      Ok (match o with Some y => y :: ys | None => ys end)
  end.

(** [r[i] += x] on a list. *)
Definition add_at (r : list Z) (i : nat) (x : Z) : result (list Z) :=
  let* y := getitem r i in Ok (<[i := y + x]> r).

(** [l[-1]] *)
Definition last_item {A} (l : list A) : result A :=
  match last l with
  | Some x => Ok x
  | None => Err IndexError
  end.

(** [l[:k]], the part a slice assignment [l[k:] = ...] keeps. *)
Definition slice_to {A} (l : list A) (k : Z) : list A :=
  if k <? 0
  then take (Z.to_nat (Z.of_nat (length l) + k)) l
  else take (Z.to_nat k) l.

(** ** The state transition (state_transition.py) *)

Section StateTransition.

Context `{Externals}.
Variable config : Config.

Definition validate_block_pre_processing_conditions
    (block parent_block : Block) (crystallized_state : CrystallizedState)
  : bool := true.

Definition validate_parent_block_proposer
    (block parent_block : Block) (crystallized_state : CrystallizedState)
  : result unit :=
  if slot_number block =? 0 then Ok tt
  else
    let* (proposer_index_in_committee, shard) :=
      get_proposer_position config parent_block crystallized_state in
    match attestations block with
    | [] => Err ValidationError
    | attestation :: _ =>
        let* is_proposer_attestation :=
          (if bool_decide (shard_id attestation = shard) &&
              (slot attestation =? slot_number parent_block)
           then has_voted (attester_bitfield attestation)
                          proposer_index_in_committee
           else Ok false) in
        if is_proposer_attestation then Ok tt
        else
          (* the message of the error formats [has_voted(...)] once more *)
          let* _ := has_voted (attester_bitfield attestation)
                        proposer_index_in_committee in
          Err ValidationError
    end.

(** The check that the bits past the committee size are zero. *)
Definition check_trailing_bits (bitfield : bytes) (last_bit : nat)
  : result unit :=
  if negb (last_bit mod 8 =? 0)%nat
  then foldM (fun _ i =>
                let* v := has_voted bitfield (last_bit + i) in
                if v then Err ValidationError else Ok tt)
             tt (seq 0 (8 - last_bit mod 8))
  else Ok tt.

(** The public keys of the committee members whose bit is set. *)
Definition voted_pubkeys (crystallized_state : CrystallizedState)
    (bitfield : bytes) (attestation_indices : list nat) : result (list Z) :=
  collectM (fun '(committee_index, validator_index) =>
              let* v := has_voted bitfield committee_index in
              if v
              then let* r := getitem (validators crystallized_state)
                                     validator_index in
                   Ok (Some (pubkey r))
              else Ok None)
           (enumerate attestation_indices).

Definition attestation_message (attestation : AttestationRecord)
    (parent_hashes : list Hash32) : result Hash32 :=
  let* m_slot := to_bytes (slot attestation) 8 in
  let* m_shard := to_bytes (Z.of_nat (shard_id attestation)) 2 in
  let* m_justified := to_bytes (justified_slot attestation) 8 in
  Ok (blake (m_slot ++ concat parent_hashes ++ m_shard ++
             shard_block_hash attestation ++ m_justified)).

Definition validate_attestation
    (crystallized_state : CrystallizedState) (active_state : ActiveState)
    (attestation : AttestationRecord) (block parent_block : Block)
  : result bool :=
  (* validate slot number *)
  let* _ := require (slot attestation <=? slot_number parent_block) in
  let* _ := require (slot attestation >=?
               Z.max (slot_number parent_block - cycle_length config + 1) 0) in
  (* validate justified_slot and justified_block_hash *)
  let* _ := require (negb (justified_slot attestation >?
                     last_justified_slot crystallized_state)) in
  let* justified_block :=
    match get_block_by_hash (chain active_state)
                            (justified_block_hash attestation) with
    | None => Err ValidationError
    | Some b => Ok b
    end in
  let* _ := require (slot_number justified_block =? justified_slot attestation) in
  let* parent_hashes :=
    get_signed_parent_hashes config active_state block attestation in
  let* attestation_indices :=
    get_attestation_indices config crystallized_state attestation in
  (* validate bitfield *)
  let* _ := require (length (attester_bitfield attestation) =?
               get_bitfield_length (length attestation_indices))%nat in
  let* _ := check_trailing_bits (attester_bitfield attestation)
                          (length attestation_indices) in
  (* validate aggregate_sig *)
  let* pub_keys := voted_pubkeys crystallized_state
                           (attester_bitfield attestation) attestation_indices in
  let* message := attestation_message attestation parent_hashes in
  let* _ := require (verify message (aggregate_pubs pub_keys)
                      (aggregate_sig attestation)) in
  Ok true.

(** [cache[key]] on a dict. *)
Definition getkey {K V : Type} `{Countable K} (m : gmap K V) (k : K)
  : result V :=
  match m !! k with
  | Some v => Ok v
  | None => Err KeyError
  end.

Definition empty_vote_entry : VoteCacheEntry :=
  {| voter_indices := ∅; total_voter_deposits := 0 |}.

(** The inner loop of [get_updated_block_vote_cache]: the committee members
    of one attestation voting for one parent hash. *)
Definition add_votes (crystallized_state : CrystallizedState)
    (attestation : AttestationRecord) (attestation_indices : list nat)
    (parent_hash : Hash32) (cache : BlockVoteCache) : result BlockVoteCache :=
  foldM (fun (cache : BlockVoteCache) '(committee_index, validator_index) =>
           let* voted :=
             has_voted (attester_bitfield attestation) committee_index in
           if voted then
             let* entry := getkey cache parent_hash in
             if bool_decide (validator_index ∉ voter_indices entry) then
               let* v := getitem (validators crystallized_state)
                                 validator_index in
               Ok (<[parent_hash :=
                      {| voter_indices :=
                           {[validator_index]} ∪ voter_indices entry;
                         total_voter_deposits :=
                           total_voter_deposits entry + balance v |}]> cache)
             else Ok cache
           else Ok cache)
        cache (enumerate attestation_indices).

Definition get_updated_block_vote_cache
    (crystallized_state : CrystallizedState) (active_state : ActiveState)
    (attestation : AttestationRecord) (block : Block)
    (block_vote_cache : BlockVoteCache) : result BlockVoteCache :=
  let new_block_vote_cache := block_vote_cache in
  let* parent_hashes :=
    get_signed_parent_hashes config active_state block attestation in
  let* attestation_indices :=
    get_attestation_indices config crystallized_state attestation in
  foldM (fun (cache : BlockVoteCache) parent_hash =>
           if bool_decide (parent_hash ∈ oblique_parent_hashes attestation)
           then Ok cache
           else
             let cache1 :=
               match cache !! parent_hash with
               | None => <[parent_hash := empty_vote_entry]> cache
               | Some _ => cache
               end in
             add_votes crystallized_state attestation attestation_indices
                       parent_hash cache1)
        new_block_vote_cache parent_hashes.

(** The loop of [process_block]: validate an attestation, then fold it
    into the vote cache. *)
Definition process_attestations
    (crystallized_state : CrystallizedState) (active_state : ActiveState)
    (block parent_block : Block) (cache : BlockVoteCache)
    (atts : list AttestationRecord) : result BlockVoteCache :=
  foldM (fun (cache : BlockVoteCache) attestation =>
           let* _ := validate_attestation crystallized_state active_state
                                          attestation block parent_block in
           get_updated_block_vote_cache crystallized_state active_state
                                        attestation block cache)
        cache atts.

Definition process_block
    (crystallized_state : CrystallizedState) (active_state : ActiveState)
    (block parent_block : Block) : result ActiveState :=
  let new_block_vote_cache := block_vote_cache active_state in
  let* _ :=
    validate_parent_block_proposer block parent_block crystallized_state in
  let* new_block_vote_cache :=
    process_attestations crystallized_state active_state block parent_block
                         new_block_vote_cache (attestations block) in
  let new_attestations :=
    pending_attestations active_state ++ attestations block in
  let new_chain :=
    {| chain_head := Some block;
       blocks := blocks (chain active_state) ++ [block] |} in
  Ok {| pending_attestations := new_attestations;
        recent_block_hashes := recent_block_hashes active_state;
        block_vote_cache := new_block_vote_cache;
        chain := new_chain |}.

(** *** Crosslinks *)

(** The two sums [process_updated_crosslinks] takes for one attestation:
    the balance of its committee and the balance of the members whose bit
    is set. *)
Definition attestation_balances (crystallized_state : CrystallizedState)
    (attestation : AttestationRecord) : result (Z * Z) :=
  let* attestation_indices :=
    get_attestation_indices config crystallized_state attestation in
  let* committee_balances :=
    mapM (fun index =>
            let* v := getitem (validators crystallized_state) index in
            Ok (balance v))
         attestation_indices in
  let* voted_balances :=
    collectM (fun '(in_cycle_slot_height, index) =>
                let* voted := has_voted (attester_bitfield attestation)
                                        in_cycle_slot_height in
                if voted
                then let* v := getitem (validators crystallized_state) index in
                     Ok (Some (balance v))
                else Ok None)
             (enumerate attestation_indices) in
  Ok (zsum committee_balances, zsum voted_balances).

Definition new_crosslink (crystallized_state : CrystallizedState)
    (attestation : AttestationRecord) : CrosslinkRecord :=
  {| dynasty := current_dynasty crystallized_state;
     crosslink_slot :=
       last_state_recalc crystallized_state + cycle_length config;
     crosslink_hash := shard_block_hash attestation |}.

(** The body of the loop of [process_updated_crosslinks]. *)
Definition crosslink_step (crystallized_state : CrystallizedState)
    (st : gmap (nat * list byte) Z * list CrosslinkRecord)
    (attestation : AttestationRecord)
  : result (gmap (nat * list byte) Z * list CrosslinkRecord) :=
  let '(total_attestation_balance, crosslinks) := st in
  let shard_tuple := (shard_id attestation, shard_block_hash attestation) in
  let total_attestation_balance :=
    match total_attestation_balance !! shard_tuple with
    | None => <[shard_tuple := 0]> total_attestation_balance
    | Some _ => total_attestation_balance
    end in
  let* (total_committee_balance, voted) :=
    attestation_balances crystallized_state attestation in
  let* old := getkey total_attestation_balance shard_tuple in
  let total_attestation_balance :=
    <[shard_tuple := old + voted]> total_attestation_balance in
  let* acc := getkey total_attestation_balance shard_tuple in
  if 3 * acc >=? 2 * total_committee_balance then
    let* record := getitem crosslinks (shard_id attestation) in
    if current_dynasty crystallized_state >? dynasty record
    then Ok (total_attestation_balance,
             <[shard_id attestation :=
                 new_crosslink crystallized_state attestation]> crosslinks)
    else Ok (total_attestation_balance, crosslinks)
  else Ok (total_attestation_balance, crosslinks).

Definition process_updated_crosslinks
    (crystallized_state : CrystallizedState) (active_state : ActiveState)
    (block : Block) : result (list CrosslinkRecord) :=
  let* (_, crosslinks) :=
    foldM (crosslink_step crystallized_state)
          (∅, crosslink_records crystallized_state)
          (pending_attestations active_state) in
  Ok crosslinks.

(** *** Reward engine *)

(** [quadratic_penalty_quotient] is computed in floating point:
    [sqrt_e_drop_time / slot_duration] is a true division of two [int]s
    and [** 2] the power of the resulting [float]; the assertion is on
    that [float], and [int] converts it. *)
Definition get_reward_context (total_deposits : Z) : result (Z * Z) :=
  (* total_deposits should be positive *)
  let* _ := py_assert (total_deposits >? 0) in
  let total_deposits_in_ETH := total_deposits / WEI_PER_ETH in
  let reward_quotient :=
    base_reward_quotient config * int_sqrt total_deposits_in_ETH in
  let* ratio :=
    int_true_divide (sqrt_e_drop_time config) (slot_duration config) in
  let* quadratic_penalty_quotient := float_pow ratio 2 in
  (* Normally quadratic_penalty_quotient should be integer *)
  let* _ := py_assert (float_is_integer quadratic_penalty_quotient) in
  let* quadratic_penalty_quotient :=
    int_of_float quadratic_penalty_quotient in
  Ok (reward_quotient, quadratic_penalty_quotient).

(** What the FFG loop reads for one slot: the vote-cache entry of the
    block at that slot, read without a presence check, or nothing voted
    when the chain has no block there. *)
Definition slot_participation (active_state : ActiveState) (s : Z)
  : result (Z * gset nat) :=
  match get_block_by_slot_number (chain active_state) s with
  | Some b =>
      let* entry := getkey (block_vote_cache active_state) (block_hash b) in
      Ok (total_voter_deposits entry, voter_indices entry)
  | None => Ok (0, ∅)
  end.

(** The body of the slot loop of [calculate_ffg_rewards]. *)
Definition ffg_rewards_step
    (crystallized_state : CrystallizedState) (active_state : ActiveState)
    (time_since_finality reward_quotient quadratic_penalty_quotient : Z)
    (rewards_and_penalties : list Z) (s : Z) : result (list Z) :=
  let validators := validators crystallized_state in
  let active_validator_indices :=
    get_active_validator_indices (current_dynasty crystallized_state)
                                 validators in
  let total_deposits := total_deposits crystallized_state in
  let* (total_participated_deposits, voter_indices) :=
    slot_participation active_state s in
  let participating_validator_indices :=
    filter (fun index => index ∈ voter_indices) active_validator_indices in
  let non_participating_validator_indices :=
    filter (fun index => index ∉ voter_indices) active_validator_indices in
  (* finalized recently? *)
  if time_since_finality <=? 3 * cycle_length config then
    let* rewards_and_penalties :=
      foldM (fun r index =>
               let* v := getitem validators index in
               let* q := floordiv (balance v) reward_quotient in
               let* d := floordiv
                           (q * (2 * total_participated_deposits - total_deposits))
                           total_deposits in
               add_at r index d)
            rewards_and_penalties participating_validator_indices in
    foldM (fun r index =>
             let* v := getitem validators index in
             let* q := floordiv (balance v) reward_quotient in
             add_at r index (- q))
          rewards_and_penalties non_participating_validator_indices
  else
    foldM (fun r index =>
             let* v := getitem validators index in
             let* q := floordiv (balance v) reward_quotient in
             let* p := floordiv (balance v * time_since_finality)
                                quadratic_penalty_quotient in
             add_at r index (- (q + p)))
          rewards_and_penalties non_participating_validator_indices.

Definition calculate_ffg_rewards
    (crystallized_state : CrystallizedState) (active_state : ActiveState)
    (block : Block) : result (list Z) :=
  let rewards_and_penalties :=
    replicate (length (validators crystallized_state)) 0 in
  let time_since_finality :=
    slot_number block - last_finalized_slot crystallized_state in
  let total_deposits := total_deposits crystallized_state in
  let* (reward_quotient, quadratic_penalty_quotient) :=
    get_reward_context total_deposits in
  let last_state_recalc := last_state_recalc crystallized_state in
  foldM (ffg_rewards_step crystallized_state active_state time_since_finality
                          reward_quotient quadratic_penalty_quotient)
        rewards_and_penalties
        (zrange (Z.max (last_state_recalc - cycle_length config) 0)
                last_state_recalc).

(** The per-shard record of [calculate_crosslink_rewards]. *)
Record CommitteeCrosslink : Type := {
  participating_validator_indices : list nat;
  non_participating_validator_indices : list nat;
  total_participated_v_deposits : Z;
  total_v_deposits : Z
}.

Definition empty_committee_crosslink : CommitteeCrosslink :=
  {| participating_validator_indices := [];
     non_participating_validator_indices := [];
     total_participated_v_deposits := 0;
     total_v_deposits := 0 |}.

(** [committee_crosslinks] is a dict that is iterated: an association
    list in insertion order, one pair per key. *)
Definition dict_get {V : Type} (d : list (nat * V)) (k : nat) : option V :=
  (fun p => p.2.2) <$> list_find (fun p => p.1 = k) d.

Fixpoint dict_set {V : Type} (d : list (nat * V)) (k : nat) (v : V)
  : list (nat * V) :=
  match d with
  | [] => [(k, v)]
  | (k', v') :: d' =>
      if bool_decide (k' = k) then (k, v) :: d' else (k', v') :: dict_set d' k v
  end.

(** The loop over the members of one committee. *)
Definition classify_committee (crystallized_state : CrystallizedState)
    (bitfield : bytes) (members : list nat)
    (committee_crosslink : CommitteeCrosslink) : result CommitteeCrosslink :=
  foldM (fun cc '(committee_index, validator_index) =>
           let* validator :=
             getitem (validators crystallized_state) validator_index in
           let* voted := has_voted bitfield committee_index in
           Ok {| participating_validator_indices :=
                   (if voted
                    then participating_validator_indices cc ++ [validator_index]
                    else participating_validator_indices cc);
                 non_participating_validator_indices :=
                   (if voted
                    then non_participating_validator_indices cc
                    else non_participating_validator_indices cc
                         ++ [validator_index]);
                 total_participated_v_deposits :=
                   (if voted
                    then total_participated_v_deposits cc + balance validator
                    else total_participated_v_deposits cc);
                 total_v_deposits := total_v_deposits cc + balance validator |})
        committee_crosslink (enumerate members).

(** The body of the first loop of [calculate_crosslink_rewards], for one
    committee of one slot. *)
Definition collect_committee
    (crystallized_state : CrystallizedState) (active_state : ActiveState)
    (s : Z) (committee_crosslinks : list (nat * CommitteeCrosslink))
    (shard_and_committee : ShardAndCommittee)
  : result (list (nat * CommitteeCrosslink)) :=
  let shard := sc_shard_id shard_and_committee in
  let committee_crosslinks :=
    match dict_get committee_crosslinks shard with
    | None => dict_set committee_crosslinks shard empty_committee_crosslink
    | Some _ => committee_crosslinks
    end in
  let attestations :=
    filter (fun attestation =>
              slot attestation = s /\ shard_id attestation = shard)
           (pending_attestations active_state) in
  let* bitfield :=
    match attestations with
    | [] => Ok (get_empty_bitfield (length (committee shard_and_committee)))
    | _ :: _ => or_bitfields (attester_bitfield <$> attestations)
    end in
  let* committee_crosslink :=
    match dict_get committee_crosslinks shard with
    | Some cc => Ok cc
    | None => Err KeyError
    end in
  let* committee_crosslink :=
    classify_committee crystallized_state bitfield
                       (committee shard_and_committee) committee_crosslink in
  Ok (dict_set committee_crosslinks shard committee_crosslink).

(** The body of the second loop of [calculate_crosslink_rewards], for one
    shard. *)
Definition shard_rewards
    (crystallized_state : CrystallizedState) (block : Block)
    (reward_quotient quadratic_penalty_quotient : Z)
    (rewards_and_penalties : list Z)
    (item : nat * CommitteeCrosslink) : result (list Z) :=
  let '(shard, committee_crosslink) := item in
  let* crosslink := getitem (crosslink_records crystallized_state) shard in
  if dynasty crosslink =? current_dynasty crystallized_state
  then Ok rewards_and_penalties
  else
    let time_since_last_confirmation :=
      slot_number block - crosslink_slot crosslink in
    let total_participated_v_deposits :=
      total_participated_v_deposits committee_crosslink in
    let total_v_deposits := total_v_deposits committee_crosslink in
    let* rewards_and_penalties :=
      foldM (fun r validator_index =>
               let* validator :=
                 getitem (validators crystallized_state) validator_index in
               let* q := floordiv (balance validator) reward_quotient in
               let* d := floordiv
                           (q * (2 * total_participated_v_deposits
                                 - total_v_deposits))
                           total_v_deposits in
               add_at r validator_index d)
            rewards_and_penalties
            (participating_validator_indices committee_crosslink) in
    foldM (fun r validator_index =>
             let* validator :=
               getitem (validators crystallized_state) validator_index in
             let* q := floordiv (balance validator) reward_quotient in
             let* p := floordiv (balance validator * time_since_last_confirmation)
                                quadratic_penalty_quotient in
             add_at r validator_index (- (q + p)))
          rewards_and_penalties
          (non_participating_validator_indices committee_crosslink).

Definition calculate_crosslink_rewards
    (crystallized_state : CrystallizedState) (active_state : ActiveState)
    (block : Block) : result (list Z) :=
  let rewards_and_penalties :=
    replicate (length (validators crystallized_state)) 0 in
  let total_deposits := total_deposits crystallized_state in
  let* (reward_quotient, quadratic_penalty_quotient) :=
    get_reward_context total_deposits in
  let last_state_recalc := last_state_recalc crystallized_state in
  (* collect crosslink participation data for each shard_id *)
  let* committee_crosslinks :=
    foldM (fun ccs s =>
             let* shards_and_committees :=
               get_shards_and_committees_for_slot config crystallized_state s in
             foldM (collect_committee crystallized_state active_state s)
                   ccs shards_and_committees)
          [] (zrange (Z.max (last_state_recalc - cycle_length config) 0)
                     last_state_recalc) in
  (* for each shard, apply rewards/penalties based on participation *)
  foldM (shard_rewards crystallized_state block
                       reward_quotient quadratic_penalty_quotient)
        rewards_and_penalties committee_crosslinks.

Definition set_balance (v : ValidatorRecord) (b : Z) : ValidatorRecord :=
  {| pubkey := pubkey v;
     balance := b;
     start_dynasty := start_dynasty v;
     end_dynasty := end_dynasty v |}.

(** The body of the loop of [apply_rewards_and_penalties]. *)
Definition apply_reward (ffg_rewards crosslink_rewards : list Z)
    (updated_validators : list ValidatorRecord) (index : nat)
  : result (list ValidatorRecord) :=
  let* v := getitem updated_validators index in
  let* ffg := getitem ffg_rewards index in
  let* crosslink := getitem crosslink_rewards index in
  let new_balance := balance v + (ffg + crosslink) in
  (* keep the balance nonnegative *)
  let new_balance := if new_balance <? 0 then 0 else new_balance in
  Ok (<[index := set_balance v new_balance]> updated_validators).

Definition apply_rewards_and_penalties
    (crystallized_state : CrystallizedState) (active_state : ActiveState)
    (block : Block) : result (list ValidatorRecord) :=
  (* FFG Rewards *)
  let* ffg_rewards :=
    calculate_ffg_rewards crystallized_state active_state block in
  (* Crosslink Rewards *)
  let* crosslink_rewards :=
    calculate_crosslink_rewards crystallized_state active_state block in
  let updated_validators := validators crystallized_state in
  let active_validator_indices :=
    get_active_validator_indices (current_dynasty crystallized_state)
                                 (validators crystallized_state) in
  (* apply rewards and penalties *)
  foldM (apply_reward ffg_rewards crosslink_rewards)
        updated_validators active_validator_indices.

(** *** Cycle engine *)

(** The guarded read of the vote cache in [initialize_new_cycle]. *)
Definition vote_balance_of (active_state : ActiveState) (block_hash : Hash32)
  : Z :=
  match block_vote_cache active_state !! block_hash with
  | Some entry => total_voter_deposits entry
  | None => 0
  end.

(** The body of the justification loop of [initialize_new_cycle]; the
    state is [(last_justified_slot, justified_streak, last_finalized_slot)]. *)
Definition justification_step
    (crystallized_state : CrystallizedState) (active_state : ActiveState)
    (st : Z * Z * Z) (i : nat) : result (Z * Z * Z) :=
  let '(last_justified_slot, justified_streak, last_finalized_slot) := st in
  let s := Z.of_nat i +
           (last_state_recalc crystallized_state - cycle_length config) in
  let* block_hash := getitem (recent_block_hashes active_state) i in
  let vote_balance := vote_balance_of active_state block_hash in
  let '(last_justified_slot, justified_streak) :=
    if 3 * vote_balance >=? 2 * total_deposits crystallized_state
    then (Z.max last_justified_slot s, justified_streak + 1)
    else (last_justified_slot, 0) in
  let last_finalized_slot :=
    if justified_streak >=? cycle_length config + 1
    then Z.max last_finalized_slot (s - cycle_length config - 1)
    else last_finalized_slot in
  Ok (last_justified_slot, justified_streak, last_finalized_slot).

(** The justification loop after its first [n] iterations. *)
Definition justification_loop
    (crystallized_state : CrystallizedState) (active_state : ActiveState)
    (n : nat) : result (Z * Z * Z) :=
  foldM (justification_step crystallized_state active_state)
        (last_justified_slot crystallized_state,
         justified_streak crystallized_state,
         last_finalized_slot crystallized_state)
        (seq 0 n).

Definition initialize_new_cycle
    (crystallized_state : CrystallizedState) (active_state : ActiveState)
    (block : Block) : result (CrystallizedState * ActiveState) :=
  let cycle_length := cycle_length config in
  let last_state_recalc := last_state_recalc crystallized_state in
  (* walk through slots last_state_recalc - CYCLE_LENGTH ...
     last_state_recalc - 1 and check for justification, streaks, finality *)
  let* (last_justified_slot, justified_streak, last_finalized_slot) :=
    justification_loop crystallized_state active_state
                       (Z.to_nat cycle_length) in
  let* crosslink_records :=
    process_updated_crosslinks crystallized_state active_state block in
  (* remove attestations older than last_state_recalc *)
  let pending_attestations :=
    filter (fun a => slot a >= last_state_recalc)
           (pending_attestations active_state) in
  let* validators :=
    apply_rewards_and_penalties crystallized_state active_state block in
  let shard_and_committee_for_slots :=
    slice_from (shard_and_committee_for_slots crystallized_state) cycle_length
    ++ slice_from (shard_and_committee_for_slots crystallized_state)
                  cycle_length in
  let new_crystallized_state :=
    {| validators := validators;
       last_state_recalc := last_state_recalc + cycle_length;
       shard_and_committee_for_slots := shard_and_committee_for_slots;
       last_justified_slot := last_justified_slot;
       justified_streak := justified_streak;
       last_finalized_slot := last_finalized_slot;
       current_dynasty := current_dynasty crystallized_state;
       crosslink_records := crosslink_records;
       dynasty_seed := dynasty_seed crystallized_state;
       dynasty_start := dynasty_start crystallized_state |} in
  let new_active_state :=
    {| pending_attestations := pending_attestations;
       recent_block_hashes := recent_block_hashes active_state;
       block_vote_cache := block_vote_cache active_state;
       chain := chain active_state |} in
  Ok (new_crystallized_state, new_active_state).

Definition fill_recent_block_hashes
    (active_state : ActiveState) (parent_block block : Block) : ActiveState :=
  {| pending_attestations := pending_attestations active_state;
     recent_block_hashes :=
       get_new_recent_block_hashes (recent_block_hashes active_state)
                                   (slot_number parent_block)
                                   (slot_number block)
                                   (parent_hash block);
     block_vote_cache := block_vote_cache active_state;
     chain := chain active_state |}.

(** *** Dynasty engine *)

Definition ready_for_dynasty_transition
    (crystallized_state : CrystallizedState) (block : Block) : bool :=
  let slots_since_last_dynasty_change :=
    slot_number block - dynasty_start crystallized_state in
  if slots_since_last_dynasty_change <? min_dynasty_length config then false
  else if last_finalized_slot crystallized_state <=?
          dynasty_start crystallized_state then false
  else
    (* gather every shard in shard_and_committee_for_slots *)
    let required_shards : gset nat :=
      list_to_set
        (sc_shard_id <$>
           concat (shard_and_committee_for_slots crystallized_state)) in
    (* check that crosslinks were updated for all required shards *)
    forallb (fun '(shard, crosslink) =>
               negb (bool_decide (shard ∈ required_shards) &&
                     (crosslink_slot crosslink <=?
                      dynasty_start crystallized_state)))
            (enumerate (crosslink_records crystallized_state)).

Definition compute_dynasty_transition
    (crystallized_state : CrystallizedState) (block : Block)
  : result CrystallizedState :=
  let new_dynasty := current_dynasty crystallized_state + 1 in
  (* Not current in spec, but should be added soon *)
  let new_dynasty_start := last_state_recalc crystallized_state in
  let* last_slot :=
    last_item (shard_and_committee_for_slots crystallized_state) in
  let* last_committee := last_item last_slot in
  let* next_start_shard :=
    pymod (Z.of_nat (sc_shard_id last_committee) + 1) (shard_count config) in
  let new_shuffling :=
    get_new_shuffling (parent_hash block)  (* stub until better RNG *)
                      (validators crystallized_state)
                      new_dynasty
                      next_start_shard in
  Ok {| validators := validators crystallized_state;
        last_state_recalc := last_state_recalc crystallized_state;
        shard_and_committee_for_slots :=
          slice_to (shard_and_committee_for_slots crystallized_state)
                   (cycle_length config) ++ new_shuffling;
        last_justified_slot := last_justified_slot crystallized_state;
        justified_streak := justified_streak crystallized_state;
        last_finalized_slot := last_finalized_slot crystallized_state;
        current_dynasty := new_dynasty;
        crosslink_records := crosslink_records crystallized_state;
        dynasty_seed := dynasty_seed crystallized_state;
        dynasty_start := new_dynasty_start |}.

(** *** Driver *)

(** One pass through the body of the [while] loop of
    [compute_cycle_transitions]. *)
Definition cycle_iteration
    (crystallized_state : CrystallizedState) (active_state : ActiveState)
    (block : Block) : result (CrystallizedState * ActiveState) :=
  let* (crystallized_state, active_state) :=
    initialize_new_cycle crystallized_state active_state block in
  if ready_for_dynasty_transition crystallized_state block then
    let* crystallized_state :=
      compute_dynasty_transition crystallized_state block in
    Ok (crystallized_state, active_state)
  else Ok (crystallized_state, active_state).

(** The [while] loop, with fuel for its iterations: [None] when the fuel
    runs out before the guard fails. *)
Fixpoint compute_cycle_transitions (fuel : nat)
    (crystallized_state : CrystallizedState) (active_state : ActiveState)
    (block : Block) : option (result (CrystallizedState * ActiveState)) :=
  if slot_number block >=?
     last_state_recalc crystallized_state + cycle_length config
  then
    match fuel with
    | O => None
    | S fuel' =>
        match cycle_iteration crystallized_state active_state block with
        | Ok (crystallized_state', active_state') =>
            compute_cycle_transitions fuel' crystallized_state'
                                      active_state' block
        | Err e => Some (Err e)
        end
    end
  else Some (Ok (crystallized_state, active_state)).

Definition compute_state_transition (fuel : nat)
    (parent_state : CrystallizedState * ActiveState)
    (parent_block block : Block)
  : option (result (CrystallizedState * ActiveState)) :=
  let '(crystallized_state, active_state) := parent_state in
  let _ := validate_block_pre_processing_conditions
             block parent_block crystallized_state in
  (* Update active state to fill any missing hashes with parent block hash *)
  let active_state := fill_recent_block_hashes active_state parent_block block in
  (* process per block state changes *)
  match process_block crystallized_state active_state block parent_block with
  | Err e => Some (Err e)
  | Ok active_state =>
      (* Initialize a new cycle(s) if needed *)
      compute_cycle_transitions fuel crystallized_state active_state block
  end.

End StateTransition.

(** ** A small chain to run the transition on

    Two-slot cycles, three validators of 32 ETH in one committee on
    shard 0, and simple stand-ins for the external collaborators. *)

Module Scenario.

Definition h (n : Z) : Hash32 := big_endian 32 n.

(** The hashes an attestation signs: the [cycle_length] hashes up to its
    slot, read from [recent_block_hashes] (whose window ends just before
    the block's slot), the last ones replaced by its oblique hashes. *)
Definition window_parent_hashes (config : Config) (active_state : ActiveState)
    (block : Block) (attestation : AttestationRecord)
  : result (list Hash32) :=
  let cl := cycle_length config in
  let sback := slot_number block - cl * 2 in
  let* hs :=
    mapM (fun i =>
            let s := slot attestation - cl + i in
            let* _ := py_assert ((sback <=? s) && (s <? sback + cl * 2)) in
            getitem (recent_block_hashes active_state) (Z.to_nat (s - sback)))
         (zrange 1 (cl - Z.of_nat (length (oblique_parent_hashes attestation))
                    + 1)) in
  Ok (hs ++ oblique_parent_hashes attestation).

Definition slot_hash (b : Block) : Hash32 := h (slot_number b + 1000).

(** A [pow] that rounds correctly: the products are rounded to nearest,
    ties to even, and a result out of range raises. *)
Definition rounded_pow (x : spec_float) (n : Z) : result spec_float :=
  let one := S754_finite false (2 ^ 52)%positive (-52) in
  let y := Z.iter n (SFmul float_prec float_emax x) one in
  match y with
  | S754_infinity _ =>
      match x with
      | S754_infinity _ => Ok y
      | _ => Err OverflowError
      end
  | _ => Ok y
  end.

Definition externals : Externals := {|
  aggregate_pubs := zsum;
  verify := fun _ pub sig => bool_decide (sig = [pub]);
  blake := fun b => take 32 (b ++ replicate 32 "000"%byte);
  block_hash := slot_hash;
  get_block_by_hash := fun c x =>
    snd <$> list_find (fun b => slot_hash b = x) (blocks c);
  get_block_by_slot_number := fun c s =>
    snd <$> list_find (fun b => slot_number b = s) (blocks c);
  get_signed_parent_hashes := window_parent_hashes;
  get_new_shuffling := fun _ vs d start =>
    replicate 2 [ {| sc_shard_id := Z.to_nat start;
                     committee := get_active_validator_indices d vs |} ];
  float_pow := rounded_pow
|}.

Definition cfg : Config :=
  {| cycle_length := 2; min_dynasty_length := 4; shard_count := 2;
     base_reward_quotient := 32768; sqrt_e_drop_time := 1048576;
     slot_duration := 8 |}.

Definition validator (k : Z) : ValidatorRecord :=
  {| pubkey := k; balance := 32 * WEI_PER_ETH;
     start_dynasty := 0; end_dynasty := 100 |}.

Definition committee0 : ShardAndCommittee :=
  {| sc_shard_id := 0; committee := [0; 1; 2]%nat |}.

Definition make_block (parent : Hash32) (s : Z)
    (atts : list AttestationRecord) : Block :=
  {| parent_hash := parent; slot_number := s; attestations := atts;
     randao_reveal := h 0; pow_chain_ref := h 0; active_state_root := h 0;
     crystallized_state_root := h 0 |}.

Definition genesis_block : Block := make_block (h 0) 0 [].

Definition genesis_crosslink : CrosslinkRecord :=
  {| dynasty := 0; crosslink_slot := 0; crosslink_hash := h 0 |}.

Definition cs0 : CrystallizedState :=
  {| validators := [validator 1; validator 2; validator 3];
     last_state_recalc := 0;
     shard_and_committee_for_slots := replicate 4 [committee0];
     last_justified_slot := 0;
     justified_streak := 0;
     last_finalized_slot := 0;
     current_dynasty := 1;
     crosslink_records := replicate 2 genesis_crosslink;
     dynasty_seed := h 0;
     dynasty_start := 0 |}.

Definition as0 : ActiveState :=
  {| pending_attestations := [];
     recent_block_hashes := replicate 4 (h 0);
     block_vote_cache := ∅;
     chain := {| chain_head := Some genesis_block;
                 blocks := [genesis_block] |} |}.

(** All three committee members attest to the genesis block and to the
    shard block [shard_hash]. *)
Definition attestation_for (shard_hash : Hash32) : AttestationRecord :=
  {| slot := 0; shard_id := 0; oblique_parent_hashes := [];
     shard_block_hash := shard_hash; attester_bitfield := ["224"%byte];
     justified_slot := 0; justified_block_hash := slot_hash genesis_block;
     aggregate_sig := [6] |}.

Definition att1 : AttestationRecord := attestation_for (h 7).
Definition att2 : AttestationRecord := attestation_for (h 8).

Definition block1 : Block := make_block (slot_hash genesis_block) 1 [att1].
Definition block3 : Block := make_block (slot_hash genesis_block) 3 [att1].

(** The active state once [att1] is pending. *)
Definition as1 : ActiveState :=
  {| pending_attestations := [att1];
     recent_block_hashes := recent_block_hashes as0;
     block_vote_cache := block_vote_cache as0;
     chain := chain as0 |}.

(** Both attestations pending: the committee of shard 0 has voted, in
    full, for two different shard blocks. *)
Definition as12 : ActiveState :=
  {| pending_attestations := [att1; att2];
     recent_block_hashes := recent_block_hashes as0;
     block_vote_cache := block_vote_cache as0;
     chain := chain as0 |}.

(** [att1] with a signature that does not verify, and [att1] with an empty
    bitfield, each in a block of its own at slot 1. *)
Definition att_unsigned : AttestationRecord :=
  {| slot := slot att1; shard_id := shard_id att1;
     oblique_parent_hashes := oblique_parent_hashes att1;
     shard_block_hash := shard_block_hash att1;
     attester_bitfield := attester_bitfield att1;
     justified_slot := justified_slot att1;
     justified_block_hash := justified_block_hash att1;
     aggregate_sig := [5] |}.


Definition block_unsigned : Block :=
  make_block (slot_hash genesis_block) 1 [att_unsigned].


(** A block without attestations at slot 6. *)
Definition block6 : Block := make_block (h 0) 6 [].

(** After the first cycle: [last_state_recalc] is 2, and there is a
    fourth validator that is not active in dynasty 1. *)
Definition idle_validator (b : Z) : ValidatorRecord :=
  {| pubkey := 4; balance := b; start_dynasty := 50; end_dynasty := 100 |}.

Definition cs2_with (fourth : ValidatorRecord) : CrystallizedState :=
  {| validators := [validator 1; validator 2; validator 3; fourth];
     last_state_recalc := 2;
     shard_and_committee_for_slots := replicate 4 [committee0];
     last_justified_slot := 0;
     justified_streak := 0;
     last_finalized_slot := 0;
     current_dynasty := 1;
     crosslink_records := replicate 2 genesis_crosslink;
     dynasty_seed := h 0;
     dynasty_start := 0 |}.

Definition cs2 : CrystallizedState := cs2_with (idle_validator 5).

(** Validators 0 and 1 have voted for the genesis block. *)
Definition as2 : ActiveState :=
  {| pending_attestations := [att1];
     recent_block_hashes := replicate 4 (h 0);
     block_vote_cache :=
       {[ slot_hash genesis_block :=
            {| voter_indices := {[0%nat; 1%nat]};
               total_voter_deposits := 64 * WEI_PER_ETH |} ]};
     chain := chain as0 |}.

(** The same, with the genesis block's hash in the window of recent
    hashes: two thirds of the deposits have voted for each slot. *)
Definition as3 : ActiveState :=
  {| pending_attestations := pending_attestations as2;
     recent_block_hashes := replicate 4 (slot_hash genesis_block);
     block_vote_cache := block_vote_cache as2;
     chain := chain as2 |}.

Definition block5 : Block := make_block (h 0) 5 [].

End Scenario.

(** ** The vocabulary of the properties

    The conditions and quantities the specification speaks of, on top of
    the definitions above. *)

Definition group_key (a : AttestationRecord) : nat * list byte :=
  (shard_id a, shard_block_hash a).

(** Invariant 5 of the data model: validator balances are
    non-negative. *)
Definition balances_nonneg (vs : list ValidatorRecord) : Prop :=
  forall v, v ∈ vs -> 0 <= balance v.

Section Vocabulary.

Context `{Externals}.
Variable config : Config.

(** *** Cycles *)

(** Enough fuel for the loop: the distance to the block's slot. *)
Definition cycles_fuel (cs : CrystallizedState) (block : Block) : nat :=
  Z.to_nat (slot_number block - last_state_recalc cs - cycle_length config + 1).

Definition schedule_ok (cs : CrystallizedState) : Prop :=
  Z.of_nat (length (shard_and_committee_for_slots cs))
  = 2 * cycle_length config.

(** The shape the shuffler promises: [cycle_length] slots. *)
Definition shuffler_ok : Prop :=
  forall seed vs d start,
    Z.of_nat (length (get_new_shuffling seed vs d start)) = cycle_length config.

(** *** Validation *)

(** The seven conditions of the attestation validator, as the
    specification lists them. *)
Definition attestation_valid (cs : CrystallizedState) (act : ActiveState)
    (att : AttestationRecord) (block parent_block : Block) : Prop :=
  slot att <= slot_number parent_block /\
  slot att >= Z.max (slot_number parent_block - cycle_length config + 1) 0 /\
  justified_slot att <= last_justified_slot cs /\
  (exists b, get_block_by_hash (chain act) (justified_block_hash att) = Some b /\
             slot_number b = justified_slot att) /\
  exists members parent_hashes pub_keys message,
    get_attestation_indices config cs att = Ok members /\
    get_signed_parent_hashes config act block att = Ok parent_hashes /\
    length (attester_bitfield att) = get_bitfield_length (length members) /\
    (forall i, (length members <= i < 8 * length (attester_bitfield att))%nat ->
               has_voted (attester_bitfield att) i = Ok false) /\
    voted_pubkeys cs (attester_bitfield att) members = Ok pub_keys /\
    attestation_message att parent_hashes = Ok message /\
    verify message (aggregate_pubs pub_keys) (aggregate_sig att) = true.

(** The block-level rule: the first attestation is the proposer's own. *)
Definition is_proposer_attestation (cs : CrystallizedState)
    (parent_block : Block) (att : AttestationRecord) : Prop :=
  exists proposer_index_in_committee shard,
    get_proposer_position config parent_block cs
      = Ok (proposer_index_in_committee, shard) /\
    shard_id att = shard /\
    slot att = slot_number parent_block /\
    has_voted (attester_bitfield att) proposer_index_in_committee = Ok true.

Definition proposer_rule_violated (cs : CrystallizedState)
    (block parent_block : Block) : Prop :=
  slot_number block > 0 /\
  (attestations block = [] \/
   exists att rest,
     attestations block = att :: rest /\
     ~ is_proposer_attestation cs parent_block att).

(** A block that has to be rejected: one of its attestations violates a
    condition, or the block-level rule is violated. *)
Definition block_invalid (cs : CrystallizedState) (act : ActiveState)
    (block parent_block : Block) : Prop :=
  (exists att, att ∈ attestations block /\
               ~ attestation_valid cs act att block parent_block) \/
  proposer_rule_violated cs block parent_block.

(** *** Crosslinks *)

Section OneCycle.

Variable cs : CrystallizedState.

(** The balance that voted in an attestation, and the balance of its
    committee. *)
Definition voted_balance (a : AttestationRecord) : Z :=
  match attestation_balances config cs a with
  | Ok (_, voted) => voted
  | Err _ => 0
  end.

Definition committee_balance (a : AttestationRecord) : Z :=
  match attestation_balances config cs a with
  | Ok (total, _) => total
  | Err _ => 0
  end.

(** The attestation balance a group has accumulated over the attestations
    [pre]. *)
Definition group_total (pre : list AttestationRecord) (k : nat * list byte)
  : Z :=
  zsum (voted_balance <$> filter (fun a => group_key a = k) pre).

(** With [a], after the attestations [pre], its group holds two thirds of
    the balance of [a]'s committee. *)
Definition reaches_threshold (pre : list AttestationRecord)
    (a : AttestationRecord) : Prop :=
  3 * (group_total pre (group_key a) + voted_balance a)
  >= 2 * committee_balance a.

(** ... and the shard's record, as the cycle found it, is of an earlier
    dynasty. *)
Definition promotes (pre : list AttestationRecord) (a : AttestationRecord)
  : Prop :=
  reaches_threshold pre a /\
  exists r, crosslink_records cs !! shard_id a = Some r /\
            current_dynasty cs > dynasty r.

(** No attestation of shard [s] in [pre] promotes. *)
Definition no_promotion (pre : list AttestationRecord) (s : nat) : Prop :=
  forall p1 b p2,
    pre = p1 ++ b :: p2 -> shard_id b = s -> ~ promotes p1 b.

(** [b] is the first attestation of shard [s] in [pre] that promotes. *)
Definition first_promotion (pre : list AttestationRecord) (s : nat)
    (b : AttestationRecord) : Prop :=
  exists p1 p2,
    pre = p1 ++ b :: p2 /\ shard_id b = s /\ promotes p1 b /\
    no_promotion p1 s.

(** The state of the loop after the attestations [pre]. *)
Definition crosslink_inv (pre : list AttestationRecord)
    (st : gmap (nat * list byte) Z * list CrosslinkRecord) : Prop :=
  (forall k, default 0 (st.1 !! k) = group_total pre k) /\
  length st.2 = length (crosslink_records cs) /\
  forall s,
    (no_promotion pre s /\ st.2 !! s = crosslink_records cs !! s) \/
    (exists b, first_promotion pre s b /\
               st.2 !! s = Some (new_crosslink config cs b)).

End OneCycle.

End Vocabulary.

(** ** More vocabulary: invariants of the two states *)

(** The order of the three slots of the crystallized state. *)
Definition finality_ordered (cs : CrystallizedState) : Prop :=
  last_finalized_slot cs <= last_justified_slot cs /\
  last_justified_slot cs <= last_state_recalc cs.

(** Two validator records that differ at most in their balance. *)
Definition same_identity (v v' : ValidatorRecord) : Prop :=
  pubkey v' = pubkey v /\
  start_dynasty v' = start_dynasty v /\
  end_dynasty v' = end_dynasty v.

(** The vote cache [c'] has every entry of [c], with at least its
    voters. *)
Definition cache_grows (c c' : gmap (list byte) VoteCacheEntry) : Prop :=
  forall h e,
    c !! h = Some e ->
    exists e', c' !! h = Some e' /\ voter_indices e ⊆ voter_indices e'.

(** The balance of the validator at an index, 0 past the end. *)
Definition balance_at (cs : CrystallizedState) (i : nat) : Z :=
  match validators cs !! i with
  | Some v => balance v
  | None => 0
  end.

(** Every entry's [total_voter_deposits] is the sum of the balances, in
    [cs], of its [voter_indices]. *)
Definition cache_consistent (cs : CrystallizedState)
    (c : gmap (list byte) VoteCacheEntry) : Prop :=
  forall h e,
    c !! h = Some e ->
    total_voter_deposits e =
      zsum (balance_at cs <$> elements (voter_indices e)).

(** One committee member in the inner loop of
    [get_updated_block_vote_cache]. *)
Definition add_vote (cs : CrystallizedState) (att : AttestationRecord)
    (parent_hash : list byte)
    (cache : gmap (list byte) VoteCacheEntry) (member : nat * nat)
  : result (gmap (list byte) VoteCacheEntry) :=
  let '(committee_index, validator_index) := member in
  let* voted := has_voted (attester_bitfield att) committee_index in
  if voted then
    let* entry := getkey cache parent_hash in
    if bool_decide (validator_index ∉ voter_indices entry) then
      let* v := getitem (validators cs) validator_index in
      Ok (<[parent_hash :=
             {| voter_indices := {[validator_index]} ∪ voter_indices entry;
                total_voter_deposits :=
                  total_voter_deposits entry + balance v |}]> cache)
    else Ok cache
  else Ok cache.

(** One signed parent hash in the outer loop of
    [get_updated_block_vote_cache]. *)
Definition add_votes_for (cs : CrystallizedState) (att : AttestationRecord)
    (members : list nat)
    (cache : gmap (list byte) VoteCacheEntry) (parent_hash : list byte)
  : result (gmap (list byte) VoteCacheEntry) :=
  if bool_decide (parent_hash ∈ oblique_parent_hashes att)
  then Ok cache
  else
    let cache1 :=
      match cache !! parent_hash with
      | None => <[parent_hash := empty_vote_entry]> cache
      | Some _ => cache
      end in
    add_votes cs att members parent_hash cache1.

(** ** More states of the small chain *)

Module Edges.

(** A configuration whose [slot_duration] does not divide its
    [sqrt_e_drop_time]: the quotient is the float 67108864.5, whose
    square is not a float and is rounded to the integer
    4503599694479360. *)
Definition cfg_odd : Config :=
  {| cycle_length := 2; min_dynasty_length := 4; shard_count := 2;
     base_reward_quotient := 32768; sqrt_e_drop_time := 134217729;
     slot_duration := 2 |}.

(** The state after the first cycle with deposits of one wei each: the
    total deposits are positive and below one ETH. *)
Definition poor_validator (k : Z) : ValidatorRecord :=
  {| pubkey := k; balance := 1; start_dynasty := 0; end_dynasty := 100 |}.

Definition cs_poor : CrystallizedState :=
  {| validators := [poor_validator 1; poor_validator 2; poor_validator 3];
     last_state_recalc := 2;
     shard_and_committee_for_slots := replicate 4 [Scenario.committee0];
     last_justified_slot := 0;
     justified_streak := 0;
     last_finalized_slot := 0;
     current_dynasty := 1;
     crosslink_records := replicate 2 Scenario.genesis_crosslink;
     dynasty_seed := Scenario.h 0;
     dynasty_start := 0 |}.

(** The state after the first cycle, with slot 1 finalized and a
    crosslink of slot 2 for shard 0, the only shard that is scheduled:
    ready for a dynasty transition at slot 5. *)
Definition cs_ready : CrystallizedState :=
  {| validators := validators Scenario.cs2;
     last_state_recalc := 2;
     shard_and_committee_for_slots := replicate 4 [Scenario.committee0];
     last_justified_slot := 1;
     justified_streak := 2;
     last_finalized_slot := 1;
     current_dynasty := 1;
     crosslink_records :=
       [ {| dynasty := 1; crosslink_slot := 2;
            crosslink_hash := Scenario.h 7 |};
         Scenario.genesis_crosslink ];
     dynasty_seed := Scenario.h 0;
     dynasty_start := 0 |}.

End Edges.

(** * Properties *)

(** ** The error monad and its loops *)

Lemma bind_Ok {A B : Type} (m : result A) (f : A -> result B) (b : B) :
  bind m f = Ok b -> exists a, m = Ok a /\ f a = Ok b.
Proof. destruct m as [a|e]; simpl; intros Hb; [eauto | discriminate]. Qed.

(** Invert one [let*] in a hypothesis [bind m f = Ok b]. *)
Tactic Notation "bind_inv" hyp(Hb) :=
  let a := fresh "a" in
  let Ha := fresh "Ha" in
  apply bind_Ok in Hb; destruct Hb as (a & Ha & Hb).

Tactic Notation "bind_inv" hyp(Hb) "as" simple_intropattern(a) ident(Ha) :=
  apply bind_Ok in Hb; destruct Hb as (a & Ha & Hb).

Lemma py_assert_Ok (c : bool) (u : unit) : py_assert c = Ok u -> c = true.
Proof. destruct c; [reflexivity | discriminate]. Qed.

Lemma require_Ok (c : bool) (u : unit) : require c = Ok u -> c = true.
Proof. destruct c; [reflexivity | discriminate]. Qed.

Lemma getitem_Ok {A : Type} (l : list A) (i : nat) (x : A) :
  getitem l i = Ok x <-> l !! i = Some x.
Proof.
  unfold getitem. destruct (l !! i); split; intros Hx; congruence.
Qed.

Lemma getkey_Ok {K V : Type} `{Countable K} (m : gmap K V) (k : K) (v : V) :
  getkey m k = Ok v <-> m !! k = Some v.
Proof.
  unfold getkey. destruct (m !! k); split; intros Hx; congruence.
Qed.

Lemma foldM_app {A S : Type} (f : S -> A -> result S) (s : S) (l1 l2 : list A) :
  foldM f s (l1 ++ l2) = bind (foldM f s l1) (fun s' => foldM f s' l2).
Proof.
  revert s. induction l1 as [|x l1 IH]; intros s; simpl; [reflexivity|].
  destruct (f s x) as [s'|e]; simpl; [apply IH | reflexivity].
Qed.

(** A property kept by every successful pass through the body holds after
    the loop. *)
Lemma foldM_invariant {A S : Type} (P : S -> Prop) (f : S -> A -> result S)
    (l : list A) :
  (forall s x s', x ∈ l -> P s -> f s x = Ok s' -> P s') ->
  forall s s', P s -> foldM f s l = Ok s' -> P s'.
Proof.
  induction l as [|x l IH]; intros Hstep s s' Hs Hrun; simpl in Hrun.
  - congruence.
  - bind_inv Hrun. apply (IH (fun s1 y s2 Hy => Hstep s1 y s2 (list_elem_of_further _ _ _ Hy))) with a.
    + apply (Hstep s x a); [left | assumption | assumption].
    + assumption.
Qed.

(** A loop that returns has passed through its body at every element. *)
Lemma foldM_Ok_each {A S : Type} (f : S -> A -> result S) (l : list A) :
  forall s s', foldM f s l = Ok s' ->
  forall x, x ∈ l -> exists s1 s2, f s1 x = Ok s2.
Proof.
  induction l as [|y l IH]; intros s s' Hrun x Hx; simpl in Hrun.
  - inversion Hx.
  - bind_inv Hrun. apply elem_of_cons in Hx as [->|Hx]; [eauto|].
    eapply IH; eassumption.
Qed.


Section CycleProperties.

Context `{Externals}.
Variable config : Config.

(** ** What a cycle returns *)

(** [initialize_new_cycle] returns exactly when its three computations
    return, and then the two states are built from their results. *)
Lemma initialize_new_cycle_Ok cs act block cs' act' :
  initialize_new_cycle config cs act block = Ok (cs', act') ->
  exists lj js lf crs vs,
    justification_loop config cs act (Z.to_nat (cycle_length config))
      = Ok (lj, js, lf) /\
    process_updated_crosslinks config cs act block = Ok crs /\
    apply_rewards_and_penalties config cs act block = Ok vs /\
    cs' = {| validators := vs;
             last_state_recalc := last_state_recalc cs + cycle_length config;
             shard_and_committee_for_slots :=
               slice_from (shard_and_committee_for_slots cs) (cycle_length config)
               ++ slice_from (shard_and_committee_for_slots cs)
                             (cycle_length config);
             last_justified_slot := lj;
             justified_streak := js;
             last_finalized_slot := lf;
             current_dynasty := current_dynasty cs;
             crosslink_records := crs;
             dynasty_seed := dynasty_seed cs;
             dynasty_start := dynasty_start cs |} /\
    act' = {| pending_attestations :=
                filter (fun a => slot a >= last_state_recalc cs)
                       (pending_attestations act);
              recent_block_hashes := recent_block_hashes act;
              block_vote_cache := block_vote_cache act;
              chain := chain act |}.
Proof.
  unfold initialize_new_cycle. intros Hrun.
  bind_inv Hrun. destruct a as [[lj js] lf].
  bind_inv Hrun. bind_inv Hrun.
  injection Hrun as <- <-. exists lj, js, lf, a, a0. auto.
Qed.

Lemma compute_dynasty_transition_Ok cs block cs' :
  compute_dynasty_transition config cs block = Ok cs' ->
  exists shuffling,
    cs' = {| validators := validators cs;
             last_state_recalc := last_state_recalc cs;
             shard_and_committee_for_slots :=
               slice_to (shard_and_committee_for_slots cs) (cycle_length config)
               ++ shuffling;
             last_justified_slot := last_justified_slot cs;
             justified_streak := justified_streak cs;
             last_finalized_slot := last_finalized_slot cs;
             current_dynasty := current_dynasty cs + 1;
             crosslink_records := crosslink_records cs;
             dynasty_seed := dynasty_seed cs;
             dynasty_start := last_state_recalc cs |} /\
    exists start_shard,
      shuffling = get_new_shuffling (parent_hash block) (validators cs)
                                    (current_dynasty cs + 1) start_shard.
Proof.
  unfold compute_dynasty_transition. intros Hrun.
  bind_inv Hrun. bind_inv Hrun. bind_inv Hrun.
  injection Hrun as <-. eauto.
Qed.

Lemma cycle_iteration_Ok cs act block cs' act' :
  cycle_iteration config cs act block = Ok (cs', act') ->
  exists cs1,
    initialize_new_cycle config cs act block = Ok (cs1, act') /\
    (cs' = cs1 \/ compute_dynasty_transition config cs1 block = Ok cs').
Proof.
  unfold cycle_iteration. intros Hrun.
  bind_inv Hrun. destruct a as [cs1 act1].
  destruct (ready_for_dynasty_transition config cs1 block).
  - bind_inv Hrun. injection Hrun as <- <-. eauto.
  - injection Hrun as <- <-. eauto.
Qed.

Lemma cycle_iteration_recalc cs act block cs' act' :
  cycle_iteration config cs act block = Ok (cs', act') ->
  last_state_recalc cs' = last_state_recalc cs + cycle_length config.
Proof.
  intros Hrun. apply cycle_iteration_Ok in Hrun as (cs1 & Hinit & Hdyn).
  apply initialize_new_cycle_Ok in Hinit
    as (lj & js & lf & crs & vs & _ & _ & _ & -> & _).
  destruct Hdyn as [->|Hdyn]; [reflexivity|].
  apply compute_dynasty_transition_Ok in Hdyn as (sh & -> & _). reflexivity.
Qed.

Lemma compute_cycle_transitions_fuel fuel :
  1 <= cycle_length config ->
  forall cs act block,
    (cycles_fuel config cs block <= fuel)%nat ->
    is_Some (compute_cycle_transitions config fuel cs act block).
Proof.
  intros Hcl. induction fuel as [|fuel IH]; intros cs act block Hfuel;
    unfold cycles_fuel in Hfuel; simpl;
    destruct (Z.geb_spec (slot_number block)
                (last_state_recalc cs + cycle_length config)) as [Hge|Hlt];
    try (eexists; reflexivity).
  - lia.
  - destruct (cycle_iteration config cs act block) as [[cs' act']|e] eqn:Hit;
      [|eexists; reflexivity].
    apply IH. unfold cycles_fuel.
    rewrite (cycle_iteration_recalc _ _ _ _ _ Hit). lia.
Qed.

(** More fuel does not change what the loop has already decided. *)
Lemma compute_cycle_transitions_more_fuel fuel :
  forall cs act block r,
    compute_cycle_transitions config fuel cs act block = Some r ->
    forall fuel', (fuel <= fuel')%nat ->
    compute_cycle_transitions config fuel' cs act block = Some r.
Proof.
  induction fuel as [|fuel IH]; intros cs act block r Hrun fuel' Hle.
  - destruct fuel'; simpl in *;
      destruct (slot_number block >=?
                last_state_recalc cs + cycle_length config);
      congruence.
  - destruct fuel' as [|fuel']; [lia|]. simpl in *.
    destruct (slot_number block >=?
              last_state_recalc cs + cycle_length config); [|assumption].
    destruct (cycle_iteration config cs act block) as [[cs' act']|e];
      [|assumption].
    apply IH with (fuel' := fuel') in Hrun; [assumption | lia].
Qed.

(** C7: if [block.slot_number < last_state_recalc + cycle_length], the
    loop of [compute_cycle_transitions] runs no cycle and returns the
    crystallized state (and the active state) it was given, whatever the
    fuel. *)
Theorem compute_cycle_transitions_no_cycle fuel cs act block :
  slot_number block < last_state_recalc cs + cycle_length config ->
  compute_cycle_transitions config fuel cs act block = Some (Ok (cs, act)).
Proof.
  intros Hlt.
  destruct fuel; simpl;
    destruct (Z.geb_spec (slot_number block)
                (last_state_recalc cs + cycle_length config));
    (reflexivity || lia).
Qed.

(** C10: with [cycle_length >= 1] the [while] loop of
    [compute_cycle_transitions] terminates: every pass through its body
    that returns moves [last_state_recalc] up by exactly [cycle_length],
    and there is a number of iterations after which the loop has ended
    (returning or raising) with an outcome that no further fuel changes. *)
Theorem compute_cycle_transitions_terminates cs act block :
  1 <= cycle_length config ->
  (forall cs1 act1 cs2 act2,
      cycle_iteration config cs1 act1 block = Ok (cs2, act2) ->
      last_state_recalc cs2 = last_state_recalc cs1 + cycle_length config /\
      last_state_recalc cs1 < last_state_recalc cs2) /\
  exists n r, forall fuel, (n <= fuel)%nat ->
    compute_cycle_transitions config fuel cs act block = Some r.
Proof.
  intros Hcl. split.
  - intros cs1 act1 cs2 act2 Hit.
    apply cycle_iteration_recalc in Hit. lia.
  - destruct (compute_cycle_transitions_fuel (cycles_fuel config cs block) Hcl
                cs act block (le_n _)) as [r Hr].
    exists (cycles_fuel config cs block), r. intros fuel Hle.
    eapply compute_cycle_transitions_more_fuel; eassumption.
Qed.

(** C1 (as the code has it): when [initialize_new_cycle] returns, the new
    active state keeps exactly the pending attestations whose slot is at
    least the _input_ [last_state_recalc], in their order, and the new
    crystallized state's [last_state_recalc] is the input's plus
    [cycle_length]. *)
Theorem initialize_new_cycle_prunes cs act block cs' act' :
  initialize_new_cycle config cs act block = Ok (cs', act') ->
  pending_attestations act' =
    filter (fun a => slot a >= last_state_recalc cs)
           (pending_attestations act) /\
  last_state_recalc cs' = last_state_recalc cs + cycle_length config.
Proof.
  intros Hrun.
  apply initialize_new_cycle_Ok in Hrun
    as (lj & js & lf & crs & vs & _ & _ & _ & -> & ->).
  split; reflexivity.
Qed.

(** *** The length of the committee schedule *)

Lemma slice_from_length {A : Type} (l : list A) (k : Z) :
  Z.of_nat (length l) = 2 * k -> Z.of_nat (length (slice_from l k)) = k.
Proof.
  intros Hlen. unfold slice_from.
  destruct (Z.ltb_spec k 0); rewrite length_drop; lia.
Qed.

Lemma slice_to_length {A : Type} (l : list A) (k : Z) :
  Z.of_nat (length l) = 2 * k -> Z.of_nat (length (slice_to l k)) = k.
Proof.
  intros Hlen. unfold slice_to.
  destruct (Z.ltb_spec k 0); rewrite length_take; lia.
Qed.

Lemma initialize_new_cycle_schedule cs act block cs' act' :
  schedule_ok config cs ->
  initialize_new_cycle config cs act block = Ok (cs', act') ->
  schedule_ok config cs'.
Proof.
  unfold schedule_ok. intros Hlen Hrun.
  apply initialize_new_cycle_Ok in Hrun
    as (lj & js & lf & crs & vs & _ & _ & _ & -> & _).
  simpl. rewrite length_app, Nat2Z.inj_add, !slice_from_length by assumption.
  lia.
Qed.

Lemma compute_dynasty_transition_schedule cs block cs' :
  shuffler_ok config -> schedule_ok config cs ->
  compute_dynasty_transition config cs block = Ok cs' ->
  schedule_ok config cs'.
Proof.
  unfold schedule_ok. intros Hsh Hlen Hrun.
  apply compute_dynasty_transition_Ok in Hrun as (sh & -> & start & ->).
  simpl. rewrite length_app, Nat2Z.inj_add, slice_to_length, Hsh by assumption.
  lia.
Qed.

Lemma compute_cycle_transitions_schedule fuel :
  shuffler_ok config ->
  forall cs act block cs' act',
    schedule_ok config cs ->
    compute_cycle_transitions config fuel cs act block = Some (Ok (cs', act')) ->
    schedule_ok config cs'.
Proof.
  intros Hsh. induction fuel as [|fuel IH]; intros cs act block cs' act' Hlen;
    simpl;
    destruct (slot_number block >=?
              last_state_recalc cs + cycle_length config);
    try congruence.
  destruct (cycle_iteration config cs act block) as [[cs1 act1]|e] eqn:Hit;
    [|discriminate].
  apply IH. apply cycle_iteration_Ok in Hit as (cs2 & Hinit & Hdyn).
  apply initialize_new_cycle_schedule in Hinit; [|assumption].
  destruct Hdyn as [->|Hdyn]; [assumption|].
  eapply compute_dynasty_transition_schedule; eassumption.
Qed.

(** C8: [len(shard_and_committee_for_slots) == 2 * cycle_length] is kept
    by the operations that build a crystallized state: by
    [initialize_new_cycle], by [compute_dynasty_transition] when the
    shuffler returns [cycle_length] slots, and so by every transition of
    the driver. *)
Theorem schedule_length_invariant cs :
  schedule_ok config cs ->
  (forall act block cs' act',
      initialize_new_cycle config cs act block = Ok (cs', act') ->
      schedule_ok config cs') /\
  (shuffler_ok config ->
   (forall block cs',
       compute_dynasty_transition config cs block = Ok cs' ->
       schedule_ok config cs') /\
   (forall fuel act parent_block block cs' act',
       compute_state_transition config fuel (cs, act) parent_block block
         = Some (Ok (cs', act')) ->
       schedule_ok config cs')).
Proof.
  intros Hlen. split; [|intros Hsh; split].
  - intros act block cs' act'. apply initialize_new_cycle_schedule, Hlen.
  - intros block cs'. apply compute_dynasty_transition_schedule; assumption.
  - intros fuel act parent_block block cs' act'. unfold compute_state_transition.
    destruct (process_block _ _ _ _ _) as [act1|e]; [|discriminate].
    apply compute_cycle_transitions_schedule; assumption.
Qed.

End CycleProperties.

(** *** The cycle properties on the small chain *)

Section CycleOnSmallChain.

#[local] Existing Instance Scenario.externals.

Lemma compute_cycle_transitions_no_cycle_witness :
  slot_number Scenario.block1 < last_state_recalc Scenario.cs0 + cycle_length Scenario.cfg /\
  compute_cycle_transitions Scenario.cfg 0 Scenario.cs0 Scenario.as1 Scenario.block1 = Some (Ok (Scenario.cs0, Scenario.as1)).
Proof.
  split; [reflexivity|].
  apply (compute_cycle_transitions_no_cycle Scenario.cfg 0 Scenario.cs0 Scenario.as1 Scenario.block1).
  reflexivity.
Defined.

Lemma compute_cycle_transitions_terminates_witness :
  1 <= cycle_length Scenario.cfg /\
  exists n r, forall fuel, (n <= fuel)%nat ->
    compute_cycle_transitions Scenario.cfg fuel Scenario.cs0 Scenario.as1 Scenario.block3 = Some r.
Proof.
  split; [discriminate|].
  apply (compute_cycle_transitions_terminates Scenario.cfg Scenario.cs0 Scenario.as1 Scenario.block3).
  discriminate.
Defined.

Lemma initialize_new_cycle_prunes_witness :
  exists cs' act',
    initialize_new_cycle Scenario.cfg Scenario.cs0 Scenario.as1 Scenario.block3 = Ok (cs', act') /\
    pending_attestations act' =
      filter (fun a => slot a >= last_state_recalc Scenario.cs0)
             (pending_attestations Scenario.as1) /\
    last_state_recalc cs' = last_state_recalc Scenario.cs0 + cycle_length Scenario.cfg.
Proof.
  destruct (initialize_new_cycle Scenario.cfg Scenario.cs0 Scenario.as1 Scenario.block3) as [[cs' act']|e] eqn:Hrun;
    [|vm_compute in Hrun; discriminate].
  exists cs', act'. split; [reflexivity|].
  apply (initialize_new_cycle_prunes Scenario.cfg Scenario.cs0 Scenario.as1 Scenario.block3 cs' act' Hrun).
Defined.

(** C1, as stated, fails: [att1] has slot 0, which is before the new
    recalc point 2, and [initialize_new_cycle] keeps it. *)
Lemma initialize_new_cycle_keeps_last_cycle :
  exists cs' act',
    initialize_new_cycle Scenario.cfg Scenario.cs0 Scenario.as1 Scenario.block3 = Ok (cs', act') /\
    pending_attestations act' = [Scenario.att1] /\
    filter (fun a => slot a >= last_state_recalc Scenario.cs0 + cycle_length Scenario.cfg)
           (pending_attestations Scenario.as1) = [] /\
    pending_attestations act' <>
      filter (fun a => slot a >= last_state_recalc Scenario.cs0 + cycle_length Scenario.cfg)
             (pending_attestations Scenario.as1).
Proof.
  destruct (initialize_new_cycle Scenario.cfg Scenario.cs0 Scenario.as1 Scenario.block3) as [[cs' act']|e] eqn:Hrun;
    [|vm_compute in Hrun; discriminate].
  exists cs', act'. split; [reflexivity|].
  assert (Hkeep : pending_attestations act' = [Scenario.att1]).
  { vm_compute in Hrun. injection Hrun as _ <-. reflexivity. }
  rewrite Hkeep. split; [reflexivity|]. split; [reflexivity|]. discriminate.
Qed.

Lemma schedule_length_invariant_witness :
  schedule_ok Scenario.cfg Scenario.cs0 /\ shuffler_ok Scenario.cfg /\
  exists cs' act',
    compute_state_transition Scenario.cfg 1 (Scenario.cs0, Scenario.as0) Scenario.genesis_block Scenario.block3
      = Some (Ok (cs', act')) /\
    last_state_recalc cs' = 2 /\
    schedule_ok Scenario.cfg cs'.
Proof.
  assert (Hcs : schedule_ok Scenario.cfg Scenario.cs0) by reflexivity.
  assert (Hsh : shuffler_ok Scenario.cfg) by (intros seed vs d start; reflexivity).
  split; [exact Hcs|]. split; [exact Hsh|].
  destruct (compute_state_transition Scenario.cfg 1 (Scenario.cs0, Scenario.as0) Scenario.genesis_block Scenario.block3)
    as [[[cs' act']|e]|] eqn:Hrun; [|vm_compute in Hrun; discriminate..].
  exists cs', act'. split; [reflexivity|]. split.
  - vm_compute in Hrun. injection Hrun as <- _. reflexivity.
  - destruct (schedule_length_invariant Scenario.cfg Scenario.cs0 Hcs) as [_ Hdyn].
    destruct (Hdyn Hsh) as [_ Hdrv].
    exact (Hdrv 1%nat Scenario.as0 Scenario.genesis_block Scenario.block3 cs' act' Hrun).
Defined.

End CycleOnSmallChain.

(** ** Justification and finality *)

Section Justification.

Context `{Externals}.
Variable config : Config.

Lemma justification_loop_S cs act n :
  justification_loop config cs act (S n) =
  bind (justification_loop config cs act n)
       (fun st => justification_step config cs act st n).
Proof.
  unfold justification_loop. rewrite seq_S, foldM_app. simpl.
  destruct (foldM _ _ (seq 0 n)) as [st|e]; simpl; [|reflexivity].
  destruct (justification_step config cs act st n); reflexivity.
Qed.

(** One pass through the body of the loop, case by case. *)
Lemma justification_step_cases cs act lj js lf i block_hash :
  recent_block_hashes act !! i = Some block_hash ->
  let s := last_state_recalc cs - cycle_length config + Z.of_nat i in
  let vote_balance := vote_balance_of act block_hash in
  exists lj' js' lf',
    justification_step config cs act (lj, js, lf) i = Ok (lj', js', lf') /\
    (3 * vote_balance >= 2 * total_deposits cs ->
     lj' = Z.max lj s /\ js' = js + 1) /\
    (3 * vote_balance < 2 * total_deposits cs -> lj' = lj /\ js' = 0) /\
    (js' >= cycle_length config + 1 ->
     lf' = Z.max lf (s - cycle_length config - 1)) /\
    (js' < cycle_length config + 1 -> lf' = lf).
Proof.
  intros Hhash s vote_balance. unfold justification_step.
  apply getitem_Ok in Hhash. rewrite Hhash. simpl. fold vote_balance.
  replace (Z.of_nat i + (last_state_recalc cs - cycle_length config))
    with s by (unfold s; lia).
  destruct (Z.geb_spec (3 * vote_balance) (2 * total_deposits cs)) as [Hj|Hj].
  - destruct (Z.geb_spec (js + 1) (cycle_length config + 1)) as [Hf|Hf];
      eexists _, _, _; (split; [reflexivity|]);
      repeat split; intros; lia.
  - destruct (Z.geb_spec 0 (cycle_length config + 1)) as [Hf|Hf];
      eexists _, _, _; (split; [reflexivity|]);
      repeat split; intros; lia.
Qed.

(** The two slots never move back in a pass through the body. *)
Lemma justification_step_mono cs act lj js lf i lj' js' lf' :
  justification_step config cs act (lj, js, lf) i = Ok (lj', js', lf') ->
  lj <= lj' /\ lf <= lf'.
Proof.
  unfold justification_step. intros Hstep. bind_inv Hstep.
  destruct (3 * vote_balance_of act a >=? 2 * total_deposits cs);
    [destruct (js + 1 >=? cycle_length config + 1)
    |destruct (0 >=? cycle_length config + 1)];
    injection Hstep as <- <- <-; lia.
Qed.

Lemma justification_loop_mono cs act n lj js lf :
  justification_loop config cs act n = Ok (lj, js, lf) ->
  last_justified_slot cs <= lj /\ last_finalized_slot cs <= lf.
Proof.
  unfold justification_loop. intros Hrun.
  apply (foldM_invariant
           (fun st : Z * Z * Z =>
              last_justified_slot cs <= st.1.1 /\
              last_finalized_slot cs <= st.2)) in Hrun.
  - exact Hrun.
  - intros [[lj1 js1] lf1] i [[lj2 js2] lf2] _ [Hlj Hlf] Hstep.
    apply justification_step_mono in Hstep. simpl in *. lia.
  - simpl. lia.
Qed.

Lemma cycle_iteration_mono cs act block cs' act' :
  cycle_iteration config cs act block = Ok (cs', act') ->
  last_justified_slot cs <= last_justified_slot cs' /\
  last_finalized_slot cs <= last_finalized_slot cs'.
Proof.
  intros Hit. apply cycle_iteration_Ok in Hit as (cs1 & Hinit & Hdyn).
  apply initialize_new_cycle_Ok in Hinit
    as (lj & js & lf & crs & vs & Hloop & _ & _ & -> & _).
  apply justification_loop_mono in Hloop.
  destruct Hdyn as [->|Hdyn]; [exact Hloop|].
  apply compute_dynasty_transition_Ok in Hdyn as (sh & -> & _). exact Hloop.
Qed.

Lemma compute_cycle_transitions_mono fuel :
  forall cs act block cs' act',
    compute_cycle_transitions config fuel cs act block = Some (Ok (cs', act')) ->
    last_justified_slot cs <= last_justified_slot cs' /\
    last_finalized_slot cs <= last_finalized_slot cs'.
Proof.
  induction fuel as [|fuel IH]; intros cs act block cs' act'; simpl;
    destruct (slot_number block >=?
              last_state_recalc cs + cycle_length config);
    try discriminate;
    try (intros [= <- <-]; lia).
  destruct (cycle_iteration config cs act block) as [[cs1 act1]|e] eqn:Hit;
    [|discriminate].
  intros Hrun. apply IH in Hrun. apply cycle_iteration_mono in Hit. lia.
Qed.

(** C2: the justification loop of [initialize_new_cycle].  It starts from
    the three counters of the crystallized state; at iteration [i], with
    [slot = last_state_recalc - cycle_length + i] and
    [block_hash = recent_block_hashes[i]], the vote balance is the
    cache's [total_voter_deposits] for that hash, or 0 without an entry;
    with [3 * vote_balance >= 2 * total_deposits] the justified slot
    becomes [max(last_justified_slot, slot)] and the streak grows by one,
    otherwise the streak is reset; with the new streak at least
    [cycle_length + 1] the finalized slot becomes
    [max(last_finalized_slot, slot - cycle_length - 1)]; and the counters
    after [cycle_length] iterations are those of the state returned. *)
Theorem justification_loop_spec cs act :
  justification_loop config cs act 0
    = Ok (last_justified_slot cs, justified_streak cs, last_finalized_slot cs) /\
  (forall i lj js lf block_hash,
      (i < Z.to_nat (cycle_length config))%nat ->
      justification_loop config cs act i = Ok (lj, js, lf) ->
      recent_block_hashes act !! i = Some block_hash ->
      let s := last_state_recalc cs - cycle_length config + Z.of_nat i in
      let vote_balance :=
        match block_vote_cache act !! block_hash with
        | Some entry => total_voter_deposits entry
        | None => 0
        end in
      exists lj' js' lf',
        justification_loop config cs act (S i) = Ok (lj', js', lf') /\
        (3 * vote_balance >= 2 * total_deposits cs ->
         lj' = Z.max lj s /\ js' = js + 1) /\
        (3 * vote_balance < 2 * total_deposits cs -> lj' = lj /\ js' = 0) /\
        (js' >= cycle_length config + 1 ->
         lf' = Z.max lf (s - cycle_length config - 1)) /\
        (js' < cycle_length config + 1 -> lf' = lf)) /\
  (forall block cs' act',
      initialize_new_cycle config cs act block = Ok (cs', act') ->
      justification_loop config cs act (Z.to_nat (cycle_length config))
        = Ok (last_justified_slot cs', justified_streak cs',
              last_finalized_slot cs')).
Proof.
  split; [reflexivity|]. split.
  - intros i lj js lf block_hash _ Hloop Hhash s vote_balance.
    destruct (justification_step_cases cs act lj js lf i block_hash Hhash)
      as (lj' & js' & lf' & Hstep & Hcases).
    exists lj', js', lf'. split; [|exact Hcases].
    rewrite justification_loop_S, Hloop. exact Hstep.
  - intros block cs' act' Hrun.
    apply initialize_new_cycle_Ok in Hrun
      as (lj & js & lf & crs & vs & Hloop & _ & _ & -> & _).
    exact Hloop.
Qed.

(** C5: across a transition that returns, neither [last_finalized_slot]
    nor [last_justified_slot] moves back. *)
Theorem finality_monotone fuel cs act parent_block block cs' act' :
  compute_state_transition config fuel (cs, act) parent_block block
    = Some (Ok (cs', act')) ->
  last_finalized_slot cs <= last_finalized_slot cs' /\
  last_justified_slot cs <= last_justified_slot cs'.
Proof.
  unfold compute_state_transition.
  destruct (process_block _ _ _ _ _) as [act1|e]; [|discriminate].
  intros Hrun. apply compute_cycle_transitions_mono in Hrun. lia.
Qed.

End Justification.

Section JustificationOnSmallChain.

#[local] Existing Instance Scenario.externals.

Lemma justification_loop_spec_witness :
  (1 < Z.to_nat (cycle_length Scenario.cfg))%nat /\
  justification_loop Scenario.cfg Scenario.cs2 Scenario.as3 1 = Ok (0, 1, 0) /\
  recent_block_hashes Scenario.as3 !! 1%nat
    = Some (Scenario.slot_hash Scenario.genesis_block) /\
  justification_loop Scenario.cfg Scenario.cs2 Scenario.as3 2 = Ok (1, 2, 0).
Proof.
  assert (Hi : (1 < Z.to_nat (cycle_length Scenario.cfg))%nat)
    by (vm_compute; constructor).
  assert (Hloop : justification_loop Scenario.cfg Scenario.cs2 Scenario.as3 1
                  = Ok (0, 1, 0)) by (vm_compute; reflexivity).
  assert (Hhash : recent_block_hashes Scenario.as3 !! 1%nat
                  = Some (Scenario.slot_hash Scenario.genesis_block))
    by reflexivity.
  repeat (split; [assumption|]).
  destruct (justification_loop_spec Scenario.cfg Scenario.cs2 Scenario.as3)
    as (_ & Hstep & _).
  destruct (Hstep 1%nat 0 1 0 _ Hi Hloop Hhash)
    as (lj' & js' & lf' & Hnext & Hyes & _ & _ & Hkeep).
  rewrite Hnext.
  destruct Hyes as [-> ->]; [vm_compute; discriminate|].
  rewrite Hkeep by (vm_compute; reflexivity). reflexivity.
Defined.

Lemma finality_monotone_witness :
  exists cs' act',
    compute_state_transition Scenario.cfg 1 (Scenario.cs0, Scenario.as0)
                             Scenario.genesis_block Scenario.block3
      = Some (Ok (cs', act')) /\
    last_finalized_slot Scenario.cs0 <= last_finalized_slot cs' /\
    last_justified_slot Scenario.cs0 <= last_justified_slot cs'.
Proof.
  destruct (compute_state_transition Scenario.cfg 1 (Scenario.cs0, Scenario.as0)
                                     Scenario.genesis_block Scenario.block3)
    as [[[cs' act']|e]|] eqn:Hrun; [|vm_compute in Hrun; discriminate..].
  exists cs', act'. split; [reflexivity|].
  exact (finality_monotone Scenario.cfg 1 Scenario.cs0 Scenario.as0
                           Scenario.genesis_block Scenario.block3 cs' act' Hrun).
Defined.

End JustificationOnSmallChain.

(** ** Rewards and penalties *)

Lemma enumerate_fst {A : Type} (l : list A) :
  (enumerate l).*1 = seq 0 (length l).
Proof.
  unfold enumerate. rewrite fmap_imap.
  rewrite (imap_ext _ (fun i _ => i)) by reflexivity.
  rewrite imap_seq_0. apply list_fmap_id.
Qed.

Lemma elem_of_enumerate {A : Type} (l : list A) (i : nat) (x : A) :
  (i, x) ∈ enumerate l <-> l !! i = Some x.
Proof.
  unfold enumerate. rewrite elem_of_lookup_imap. split.
  - intros (j & y & [= -> ->] & Hy). exact Hy.
  - intros Hx. eauto.
Qed.

Lemma elem_of_active_indices (d : Z) (vs : list ValidatorRecord) (i : nat) :
  i ∈ get_active_validator_indices d vs <->
  exists v, vs !! i = Some v /\ is_active d v = true.
Proof.
  unfold get_active_validator_indices.
  rewrite list_elem_of_fmap. split.
  - intros ([j v] & -> & Hin). apply list_elem_of_filter in Hin as [Hact Hin].
    apply elem_of_enumerate in Hin. exists v. split; [exact Hin|].
    apply Is_true_true. exact Hact.
  - intros (v & Hv & Hact). exists (i, v). split; [reflexivity|].
    apply list_elem_of_filter. split.
    + apply Is_true_true. exact Hact.
    + apply elem_of_enumerate. exact Hv.
Qed.

Lemma NoDup_active_indices (d : Z) (vs : list ValidatorRecord) :
  NoDup (get_active_validator_indices d vs).
Proof.
  unfold get_active_validator_indices.
  apply sublist_NoDup with ((enumerate vs).*1).
  - rewrite enumerate_fst. apply NoDup_seq.
  - apply fmap_sublist, sublist_filter.
Qed.

Lemma apply_reward_Ok ffg crosslink vs i vs' :
  apply_reward ffg crosslink vs i = Ok vs' ->
  exists v f c,
    vs !! i = Some v /\ ffg !! i = Some f /\ crosslink !! i = Some c /\
    vs' = <[i := set_balance v (Z.max 0 (balance v + (f + c)))]> vs.
Proof.
  unfold apply_reward. intros Hrun.
  bind_inv Hrun. bind_inv Hrun. bind_inv Hrun.
  apply getitem_Ok in Ha, Ha0, Ha1.
  injection Hrun as <-. exists a, a0, a1. repeat split; try assumption.
  f_equal. f_equal.
  destruct (Z.ltb_spec (balance a + (a0 + a1)) 0); lia.
Qed.

(** The loop of [apply_rewards_and_penalties] over distinct indices: every
    index of the loop gets its new balance, once, and the rest of the
    list is as before. *)
Lemma apply_rewards_loop ffg crosslink idxs :
  NoDup idxs ->
  forall vs out,
    foldM (apply_reward ffg crosslink) vs idxs = Ok out ->
    length out = length vs /\
    forall i,
      (i ∈ idxs ->
       exists v f c,
         vs !! i = Some v /\ ffg !! i = Some f /\ crosslink !! i = Some c /\
         out !! i = Some (set_balance v (Z.max 0 (balance v + (f + c))))) /\
      (i ∉ idxs -> out !! i = vs !! i).
Proof.
  induction 1 as [|j idxs Hj Hnd IH]; intros vs out Hrun; simpl in Hrun.
  - injection Hrun as <-. split; [reflexivity|].
    intros i. split; [intros Hi; inversion Hi | reflexivity].
  - bind_inv Hrun.
    apply apply_reward_Ok in Ha as (v & f & c & Hv & Hf & Hc & ->).
    apply IH in Hrun as [Hlen Hall].
    rewrite length_insert in Hlen. split; [exact Hlen|].
    intros i. destruct (Hall i) as [Hin Hout]. split.
    + intros Hi. apply elem_of_cons in Hi as [->|Hi].
      * exists v, f, c. repeat split; try assumption.
        rewrite (Hout Hj). apply list_lookup_insert_eq.
        apply lookup_lt_Some in Hv. exact Hv.
      * assert (Hne : j <> i) by (intros ->; contradiction).
        destruct (Hin Hi) as (v' & f' & c' & Hv' & Hrest).
        rewrite list_lookup_insert_ne in Hv' by exact Hne. eauto.
    + intros Hi. apply not_elem_of_cons in Hi as [Hne Hi].
      rewrite (Hout Hi). apply list_lookup_insert_ne. congruence.
Qed.

Section Rewards.

Context `{Externals}.
Variable config : Config.

(** C4: when [apply_rewards_and_penalties] returns, every validator
    active in [current_dynasty] has the balance
    [max(0, balance + ffg_delta + crosslink_delta)] and is otherwise as
    before, every inactive validator's record is unchanged, and so, on a
    state of the data model (invariant 5: the balances are
    non-negative), every balance in the output is non-negative. *)
Theorem apply_rewards_and_penalties_spec cs act block out :
  apply_rewards_and_penalties config cs act block = Ok out ->
  exists ffg crosslink,
    calculate_ffg_rewards config cs act block = Ok ffg /\
    calculate_crosslink_rewards config cs act block = Ok crosslink /\
    length out = length (validators cs) /\
    (forall i v,
        validators cs !! i = Some v ->
        is_active (current_dynasty cs) v = true ->
        exists f c,
          ffg !! i = Some f /\ crosslink !! i = Some c /\
          out !! i = Some (set_balance v (Z.max 0 (balance v + f + c)))) /\
    (forall i v,
        validators cs !! i = Some v ->
        is_active (current_dynasty cs) v = false ->
        out !! i = Some v) /\
    (balances_nonneg (validators cs) -> balances_nonneg out).
Proof.
  unfold apply_rewards_and_penalties. intros Hrun.
  bind_inv Hrun. bind_inv Hrun. rename a into ffg, a0 into crosslink.
  apply apply_rewards_loop in Hrun as [Hlen Hall];
    [|apply NoDup_active_indices].
  assert (Hact : forall i v,
             validators cs !! i = Some v ->
             is_active (current_dynasty cs) v = true ->
             exists f c,
               ffg !! i = Some f /\ crosslink !! i = Some c /\
               out !! i = Some (set_balance v (Z.max 0 (balance v + f + c)))).
  { intros i v Hv Hactive. destruct (Hall i) as [Hin _].
    destruct Hin as (v' & f & c & Hv' & Hf & Hc & Hout).
    { apply elem_of_active_indices. eauto. }
    assert (v' = v) as -> by congruence.
    exists f, c. rewrite Hout. repeat split; try assumption.
    do 3 f_equal. lia. }
  assert (Hinact : forall i v,
             validators cs !! i = Some v ->
             is_active (current_dynasty cs) v = false ->
             out !! i = Some v).
  { intros i v Hv Hinactive. destruct (Hall i) as [_ Hout].
    rewrite Hout; [exact Hv|].
    intros (v' & Hv' & Hactive)%elem_of_active_indices. congruence. }
  exists ffg, crosslink. repeat split; try assumption.
  intros Hnonneg v' Hv'. apply list_elem_of_lookup in Hv' as [i Hi].
  assert (Hlt : (i < length (validators cs))%nat).
  { rewrite <- Hlen. apply lookup_lt_Some in Hi. exact Hi. }
  apply lookup_lt_is_Some in Hlt as [v Hv].
  destruct (is_active (current_dynasty cs) v) eqn:Hactive.
  - destruct (Hact i v Hv Hactive) as (f & c & _ & _ & Hout).
    assert (v' = set_balance v (Z.max 0 (balance v + f + c))) as ->
      by congruence.
    simpl. lia.
  - rewrite (Hinact i v Hv Hactive) in Hi. injection Hi as <-.
    apply Hnonneg. apply list_elem_of_lookup. eauto.
Qed.

End Rewards.

Section RewardsOnSmallChain.

#[local] Existing Instance Scenario.externals.

Lemma apply_rewards_and_penalties_spec_witness :
  balances_nonneg (validators Scenario.cs2) /\
  exists out,
    apply_rewards_and_penalties Scenario.cfg Scenario.cs2 Scenario.as2
                                Scenario.block5 = Ok out /\
    length out = 4%nat /\
    balances_nonneg out.
Proof.
  assert (Hinv : balances_nonneg (validators Scenario.cs2)).
  { intros v Hv.
    change (validators Scenario.cs2)
      with [Scenario.validator 1; Scenario.validator 2; Scenario.validator 3;
            Scenario.idle_validator 5] in Hv.
    apply elem_of_cons in Hv as [->|Hv]; [discriminate|].
    apply elem_of_cons in Hv as [->|Hv]; [discriminate|].
    apply elem_of_cons in Hv as [->|Hv]; [discriminate|].
    apply elem_of_cons in Hv as [->|Hv]; [discriminate|].
    inversion Hv. }
  split; [exact Hinv|].
  destruct (apply_rewards_and_penalties Scenario.cfg Scenario.cs2 Scenario.as2
                                        Scenario.block5)
    as [out|e] eqn:Hrun; [|vm_compute in Hrun; discriminate].
  exists out. split; [reflexivity|].
  destruct (apply_rewards_and_penalties_spec
              Scenario.cfg Scenario.cs2 Scenario.as2 Scenario.block5 out Hrun)
    as (ffg & crosslink & _ & _ & Hlen & _ & _ & Hnonneg).
  split; [exact Hlen | exact (Hnonneg Hinv)].
Defined.

End RewardsOnSmallChain.

(** ** The vote-cache lookups *)

Lemma elem_of_zrange (a b s : Z) : s ∈ zrange a b <-> a <= s < b.
Proof.
  unfold zrange. rewrite list_elem_of_fmap. split.
  - intros (i & -> & Hi). apply elem_of_seq in Hi. lia.
  - intros Hs. exists (Z.to_nat (s - a)). split; [lia|].
    apply elem_of_seq. lia.
Qed.

Lemma zrange_cons (a b : Z) : a < b -> zrange a b = a :: zrange (a + 1) b.
Proof.
  intros Hlt. unfold zrange.
  replace (Z.to_nat (b - a)) with (S (Z.to_nat (b - (a + 1)))) by lia.
  simpl. rewrite <- fmap_S_seq, <- list_fmap_compose. f_equal; [lia|].
  apply list_fmap_ext. intros _ i _. simpl. lia.
Qed.

Section VoteCacheLookups.

Context `{Externals}.
Variable config : Config.

(** The FFG loop gets past a slot only if the block of that slot, when the
    chain has one, has an entry in the vote cache. *)
Lemma ffg_rewards_step_Ok cs act tsf rq qpq rewards s rewards' :
  ffg_rewards_step config cs act tsf rq qpq rewards s = Ok rewards' ->
  forall b,
    get_block_by_slot_number (chain act) s = Some b ->
    is_Some (block_vote_cache act !! block_hash b).
Proof.
  unfold ffg_rewards_step. intros Hstep b Hb. bind_inv Hstep.
  unfold slot_participation in Ha. rewrite Hb in Ha. bind_inv Ha.
  apply getkey_Ok in Ha0. eauto.
Qed.

Lemma ffg_rewards_step_KeyError cs act tsf rq qpq rewards s b :
  get_block_by_slot_number (chain act) s = Some b ->
  block_vote_cache act !! block_hash b = None ->
  ffg_rewards_step config cs act tsf rq qpq rewards s = Err KeyError.
Proof.
  intros Hb Hmiss. unfold ffg_rewards_step, slot_participation, getkey.
  rewrite Hb, Hmiss. reflexivity.
Qed.

Lemma calculate_ffg_rewards_Ok cs act block rewards :
  calculate_ffg_rewards config cs act block = Ok rewards ->
  forall s b,
    Z.max (last_state_recalc cs - cycle_length config) 0 <= s
      < last_state_recalc cs ->
    get_block_by_slot_number (chain act) s = Some b ->
    is_Some (block_vote_cache act !! block_hash b).
Proof.
  unfold calculate_ffg_rewards. intros Hrun s b Hs Hb.
  bind_inv Hrun. destruct a as [rq qpq].
  destruct (foldM_Ok_each _ _ _ _ Hrun s (proj2 (elem_of_zrange _ _ _) Hs))
    as (r1 & r2 & Hstep).
  eapply ffg_rewards_step_Ok; eassumption.
Qed.

Lemma calculate_ffg_rewards_KeyError cs act block b :
  is_ok (get_reward_context config (total_deposits cs)) = true ->
  Z.max (last_state_recalc cs - cycle_length config) 0 < last_state_recalc cs ->
  get_block_by_slot_number
    (chain act) (Z.max (last_state_recalc cs - cycle_length config) 0) = Some b ->
  block_vote_cache act !! block_hash b = None ->
  calculate_ffg_rewards config cs act block = Err KeyError.
Proof.
  intros Hctx Hrange Hb Hmiss. unfold calculate_ffg_rewards.
  destruct (get_reward_context config (total_deposits cs)) as [[rq qpq]|e];
    [|discriminate].
  simpl. rewrite (zrange_cons _ _ Hrange). simpl.
  rewrite (ffg_rewards_step_KeyError _ _ _ _ _ _ _ _ Hb Hmiss). reflexivity.
Qed.

(** The lookup of [initialize_new_cycle] is guarded: without an entry the
    vote balance is 0 and the body of the loop returns. *)
Lemma justification_step_guarded cs act st i block_hash :
  recent_block_hashes act !! i = Some block_hash ->
  block_vote_cache act !! block_hash = None ->
  vote_balance_of act block_hash = 0 /\
  is_ok (justification_step config cs act st i) = true.
Proof.
  intros Hhash Hmiss. split.
  - unfold vote_balance_of. rewrite Hmiss. reflexivity.
  - destruct st as [[lj js] lf].
    destruct (justification_step_cases config cs act lj js lf i block_hash Hhash)
      as (lj' & js' & lf' & -> & _).
    reflexivity.
Qed.

End VoteCacheLookups.

(** C9: [calculate_ffg_rewards] reads [block_vote_cache[block.hash]]
    without a presence check for every block the chain has at a slot of
    [max(last_state_recalc - cycle_length, 0) .. last_state_recalc): it
    returns only if each of these blocks has an entry; when the first
    slot of the range has a block without an entry it raises [KeyError];
    and there is an input on which it does.  The lookup of
    [initialize_new_cycle] is guarded: a hash without an entry counts as
    vote balance 0 and the loop body returns. *)
Theorem calculate_ffg_rewards_unguarded_lookup :
  (forall (E : Externals) (config : Config) cs act block,
      (forall rewards,
          calculate_ffg_rewards config cs act block = Ok rewards ->
          forall s b,
            Z.max (last_state_recalc cs - cycle_length config) 0 <= s
              < last_state_recalc cs ->
            get_block_by_slot_number (chain act) s = Some b ->
            is_Some (block_vote_cache act !! block_hash b)) /\
      (forall b,
          is_ok (get_reward_context config (total_deposits cs)) = true ->
          Z.max (last_state_recalc cs - cycle_length config) 0
            < last_state_recalc cs ->
          get_block_by_slot_number
            (chain act)
            (Z.max (last_state_recalc cs - cycle_length config) 0) = Some b ->
          block_vote_cache act !! block_hash b = None ->
          calculate_ffg_rewards config cs act block = Err KeyError) /\
      (forall st i block_hash,
          recent_block_hashes act !! i = Some block_hash ->
          block_vote_cache act !! block_hash = None ->
          vote_balance_of act block_hash = 0 /\
          is_ok (justification_step config cs act st i) = true)) /\
  (exists (E : Externals) (config : Config) cs act block,
      calculate_ffg_rewards config cs act block = Err KeyError).
Proof.
  split.
  - intros E config cs act block. split; [|split].
    + intros rewards. apply calculate_ffg_rewards_Ok.
    + intros b. apply calculate_ffg_rewards_KeyError.
    + intros st i block_hash. apply justification_step_guarded.
  - exists Scenario.externals, Scenario.cfg, Scenario.cs2, Scenario.as0,
           Scenario.block5.
    vm_compute. reflexivity.
Qed.

Section LookupsOnSmallChain.

#[local] Existing Instance Scenario.externals.

Lemma calculate_ffg_rewards_unguarded_lookup_witness :
  is_ok (get_reward_context Scenario.cfg (total_deposits Scenario.cs2)) = true /\
  Z.max (last_state_recalc Scenario.cs2 - cycle_length Scenario.cfg) 0
    < last_state_recalc Scenario.cs2 /\
  get_block_by_slot_number (chain Scenario.as0) 0 = Some Scenario.genesis_block /\
  block_vote_cache Scenario.as0 !! block_hash Scenario.genesis_block = None /\
  calculate_ffg_rewards Scenario.cfg Scenario.cs2 Scenario.as0 Scenario.block5
    = Err KeyError.
Proof.
  assert (Hctx : is_ok (get_reward_context Scenario.cfg
                          (total_deposits Scenario.cs2)) = true)
    by (vm_compute; reflexivity).
  assert (Hrange :
            Z.max (last_state_recalc Scenario.cs2 - cycle_length Scenario.cfg) 0
            < last_state_recalc Scenario.cs2) by (vm_compute; reflexivity).
  assert (Hb : get_block_by_slot_number (chain Scenario.as0) 0
               = Some Scenario.genesis_block) by (vm_compute; reflexivity).
  assert (Hmiss : block_vote_cache Scenario.as0
                    !! block_hash Scenario.genesis_block = None)
    by (vm_compute; reflexivity).
  repeat (split; [assumption|]).
  destruct (calculate_ffg_rewards_unguarded_lookup) as [Hall _].
  destruct (Hall Scenario.externals Scenario.cfg Scenario.cs2 Scenario.as0
                 Scenario.block5) as (_ & Hkey & _).
  exact (Hkey Scenario.genesis_block Hctx Hrange Hb Hmiss).
Defined.

End LookupsOnSmallChain.

(** ** Rejection of invalid blocks *)

Lemma foldM_unit_Ok {A : Type} (g : A -> result unit) (l : list A) :
  foldM (fun _ x => g x) tt l = Ok tt <-> forall x, x ∈ l -> g x = Ok tt.
Proof.
  induction l as [|y l IH]; simpl.
  - split; [intros _ x Hx; inversion Hx | reflexivity].
  - split.
    + intros Hrun x Hx. bind_inv Hrun. destruct a.
      apply elem_of_cons in Hx as [->|Hx]; [exact Ha|].
      apply IH; assumption.
    + intros Hall. rewrite (Hall y) by left. simpl.
      apply IH. intros x Hx. apply Hall. right. exact Hx.
Qed.

(** The loop over the trailing bits returns exactly when the bits from the
    committee size to the end of the bitfield are zero. *)
Lemma check_trailing_bits_Ok (bitfield : bytes) (last_bit : nat) :
  length bitfield = get_bitfield_length last_bit ->
  check_trailing_bits bitfield last_bit = Ok tt <->
  forall i, (last_bit <= i < 8 * length bitfield)%nat ->
            has_voted bitfield i = Ok false.
Proof.
  intros Hlen. unfold get_bitfield_length in Hlen. unfold check_trailing_bits.
  destruct (Nat.eqb_spec (last_bit mod 8) 0) as [Hmod|Hmod]; cbn [negb].
  - split; [|reflexivity]. intros _ i Hi. exfalso.
    pose proof (Nat.div_mod_eq last_bit 8) as Hdm.
    pose proof (Nat.div_mod_eq (last_bit + 7) 8) as Hdm7.
    pose proof (Nat.mod_upper_bound (last_bit + 7) 8) as Hub7.
    lia.
  - pose proof (Nat.div_mod_eq last_bit 8) as Hdm.
    pose proof (Nat.mod_upper_bound last_bit 8) as Hub.
    pose proof (Nat.div_mod_eq (last_bit + 7) 8) as Hdm7.
    pose proof (Nat.mod_upper_bound (last_bit + 7) 8) as Hub7.
    assert (Hend : (8 * length bitfield = last_bit + (8 - last_bit mod 8))%nat)
      by lia.
    rewrite (foldM_unit_Ok
               (fun i => bind (has_voted bitfield (last_bit + i))
                              (fun v => if v then Err ValidationError
                                        else Ok tt))).
    split.
    + intros Hall i Hi.
      assert (Hin : (i - last_bit)%nat ∈ seq 0 (8 - last_bit mod 8))
        by (apply elem_of_seq; lia).
      apply Hall in Hin.
      replace (last_bit + (i - last_bit))%nat with i in Hin by lia.
      destruct (has_voted bitfield i) as [[|]|e];
        (reflexivity || discriminate Hin).
    + intros Hall j Hj. pose proof (proj1 (elem_of_seq _ _ _) Hj) as Hlt.
      rewrite Hall by lia. reflexivity.
Qed.

Section Validation.

Context `{Externals}.
Variable config : Config.

Lemma validate_attestation_Ok cs act att block parent_block r :
  validate_attestation config cs act att block parent_block = Ok r ->
  attestation_valid config cs act att block parent_block.
Proof.
  unfold validate_attestation. intros Hrun.
  bind_inv Hrun as [] H1. apply require_Ok in H1.
  bind_inv Hrun as [] H2. apply require_Ok in H2.
  bind_inv Hrun as [] H3. apply require_Ok in H3.
  bind_inv Hrun as jb H4.
  bind_inv Hrun as [] H4'. apply require_Ok in H4'.
  bind_inv Hrun as parent_hashes Hph.
  bind_inv Hrun as members Hmem.
  bind_inv Hrun as [] H5. apply require_Ok in H5.
  bind_inv Hrun as [] H6.
  bind_inv Hrun as pub_keys Hpk.
  bind_inv Hrun as message Hmsg.
  bind_inv Hrun as [] H7. apply require_Ok in H7.
  apply Nat.eqb_eq in H5.
  unfold attestation_valid. repeat split.
  - lia.
  - lia.
  - destruct (Z.gtb_spec (justified_slot att) (last_justified_slot cs));
      [discriminate | lia].
  - destruct (get_block_by_hash (chain act) (justified_block_hash att))
      as [b|]; [|discriminate].
    injection H4 as ->. exists jb. split; [reflexivity | lia].
  - exists members, parent_hashes, pub_keys, message.
    repeat split; try assumption.
    apply check_trailing_bits_Ok; assumption.
Qed.

Lemma attestation_valid_Ok cs act att block parent_block :
  attestation_valid config cs act att block parent_block ->
  validate_attestation config cs act att block parent_block = Ok true.
Proof.
  intros (H1 & H2 & H3 & (b & Hb & Hslot) & members & parent_hashes & pub_keys
          & message & Hmem & Hph & H5 & H6 & Hpk & Hmsg & H7).
  unfold validate_attestation.
  replace (slot att <=? slot_number parent_block) with true by lia.
  replace (slot att >=?
           Z.max (slot_number parent_block - cycle_length config + 1) 0)
    with true by lia.
  replace (justified_slot att >? last_justified_slot cs) with false by lia.
  simpl. rewrite Hb. simpl.
  replace (slot_number b =? justified_slot att) with true by lia.
  simpl. rewrite Hph. simpl. rewrite Hmem. simpl.
  rewrite H5, Nat.eqb_refl. simpl.
  rewrite (proj2 (check_trailing_bits_Ok _ _ H5) H6). simpl.
  rewrite Hpk. simpl. rewrite Hmsg. simpl. rewrite H7. reflexivity.
Qed.

Lemma validate_parent_block_proposer_Ok cs block parent_block :
  validate_parent_block_proposer config block parent_block cs = Ok tt ->
  slot_number block = 0 \/
  exists att rest,
    attestations block = att :: rest /\
    is_proposer_attestation config cs parent_block att.
Proof.
  unfold validate_parent_block_proposer.
  destruct (Z.eqb_spec (slot_number block) 0) as [Hzero|Hnz]; [auto|].
  intros Hrun. right. bind_inv Hrun as [pidx shard] Hpos.
  destruct (attestations block) as [|att rest]; [discriminate|].
  bind_inv Hrun as [|] Hvote; [|bind_inv Hrun; discriminate].
  exists att, rest. split; [reflexivity|]. exists pidx, shard.
  destruct (bool_decide_reflect (shard_id att = shard)) as [Hshard|];
    [|discriminate].
  destruct (Z.eqb_spec (slot att) (slot_number parent_block)) as [Hslot|];
    [|discriminate].
  auto.
Qed.

Lemma process_block_Ok cs act block parent_block act' :
  process_block config cs act block parent_block = Ok act' ->
  validate_parent_block_proposer config block parent_block cs = Ok tt /\
  forall att, att ∈ attestations block ->
              attestation_valid config cs act att block parent_block.
Proof.
  unfold process_block, process_attestations. intros Hrun.
  bind_inv Hrun as [] Hprop. bind_inv Hrun as cache Hatts.
  split; [exact Hprop|]. intros att Hatt.
  destruct (foldM_Ok_each _ _ _ _ Hatts att Hatt) as (c1 & c2 & Hstep).
  bind_inv Hstep as r Hvalid.
  eapply validate_attestation_Ok. exact Hvalid.
Qed.

(** An invalid block never gets through [process_block]. *)
Lemma process_block_rejects cs act block parent_block :
  block_invalid config cs act block parent_block ->
  exists e, process_block config cs act block parent_block = Err e.
Proof.
  intros Hbad.
  destruct (process_block config cs act block parent_block) as [act'|e] eqn:Hrun;
    [exfalso | eauto].
  apply process_block_Ok in Hrun as [Hprop Hvalid].
  destruct Hbad as [(att & Hatt & Hbad)|(Hpos & Hbad)].
  - apply Hbad, Hvalid, Hatt.
  - apply validate_parent_block_proposer_Ok in Hprop as [Hzero|Hfirst]; [lia|].
    destruct Hfirst as (att & rest & Hatts & Hproposer).
    destruct Hbad as [Hnil|(att' & rest' & Hatts' & Hbad)]; [congruence|].
    apply Hbad. congruence.
Qed.

(** *** Which exception *)



(** X19: an invalid block is never accepted.  A block with an
    attestation that violates a condition of [validate_attestation], or
    with [slot_number > 0] and no attestation or a first attestation that
    is not the proposer's, makes [compute_state_transition] raise,
    whatever the fuel: no successor pair is returned and no attestation
    of the block is accepted.  The conditions are those of the validator
    on the active state with the recent hashes filled, which is what the
    driver validates against. *)
Theorem invalid_block_never_accepted fuel cs act parent_block block :
  block_invalid config cs (fill_recent_block_hashes act parent_block block)
                block parent_block ->
  exists e,
    compute_state_transition config fuel (cs, act) parent_block block
      = Some (Err e).
Proof.
  intros Hbad. apply process_block_rejects in Hbad as [e Hrun].
  exists e. unfold compute_state_transition. rewrite Hrun. reflexivity.
Qed.

End Validation.

Section ValidationOnSmallChain.

#[local] Existing Instance Scenario.externals.


Lemma invalid_block_never_accepted_witness :
  block_invalid Scenario.cfg Scenario.cs0
    (fill_recent_block_hashes Scenario.as0 Scenario.genesis_block
                              Scenario.block_unsigned)
    Scenario.block_unsigned Scenario.genesis_block /\
  compute_state_transition Scenario.cfg 0 (Scenario.cs0, Scenario.as0)
                           Scenario.genesis_block Scenario.block_unsigned
    = Some (Err ValidationError).
Proof.
  assert (Hbad :
            block_invalid Scenario.cfg Scenario.cs0
              (fill_recent_block_hashes Scenario.as0 Scenario.genesis_block
                                        Scenario.block_unsigned)
              Scenario.block_unsigned Scenario.genesis_block).
  { left. exists Scenario.att_unsigned. split; [left|].
    intros Hvalid. apply attestation_valid_Ok in Hvalid.
    vm_compute in Hvalid. discriminate. }
  split; [exact Hbad|].
  destruct (invalid_block_never_accepted Scenario.cfg 0 Scenario.cs0
              Scenario.as0 Scenario.genesis_block Scenario.block_unsigned Hbad)
    as (e & Hrun).
  rewrite Hrun. vm_compute in Hrun. injection Hrun as <-. reflexivity.
Defined.

End ValidationOnSmallChain.

(** ** Crosslinks *)

Lemma zsum_app (l1 l2 : list Z) : zsum (l1 ++ l2) = zsum l1 + zsum l2.
Proof.
  unfold zsum. induction l1 as [|x l1 IH]; simpl; [reflexivity|].
  rewrite IH. lia.
Qed.

(** Two ways of splitting one list around an element: the same place, or
    one element is before the other. *)
Lemma split_compare {A : Type} (l1 l2 k1 k2 : list A) (x y : A) :
  l1 ++ x :: l2 = k1 ++ y :: k2 ->
  (l1 = k1 /\ x = y /\ l2 = k2) \/
  (exists m, k1 = l1 ++ x :: m) \/
  (exists m, l1 = k1 ++ y :: m).
Proof.
  revert k1. induction l1 as [|a l1 IH]; intros [|b k1] Heq; simpl in Heq.
  - injection Heq as -> ->. auto.
  - injection Heq as -> ->. right. left. eauto.
  - injection Heq as -> <-. right. right. eauto.
  - injection Heq as -> Heq. destruct (IH _ Heq) as [(-> & -> & ->)|[[m ->]|[m ->]]].
    + auto.
    + right. left. eauto.
    + right. right. eauto.
Qed.

Lemma snoc_split {A : Type} (pre p1 p2 : list A) (a b : A) :
  pre ++ [a] = p1 ++ b :: p2 ->
  (p1 = pre /\ b = a /\ p2 = []) \/
  (exists p2', p2 = p2' ++ [a] /\ pre = p1 ++ b :: p2').
Proof.
  intros Heq. destruct (split_compare _ _ _ _ _ _ Heq)
    as [(-> & -> & <-)|[[m ->]|[m ->]]].
  - auto.
  - rewrite <- app_assoc in Heq. apply app_inv_head in Heq.
    simpl in Heq. injection Heq as Heq. destruct m; discriminate.
  - right. rewrite <- app_assoc in Heq. apply app_inv_head in Heq.
    simpl in Heq. injection Heq as <-. eauto.
Qed.

Section Crosslinks.

Context `{Externals}.
Variable config : Config.
Variable cs : CrystallizedState.

Lemma group_total_snoc pre a k :
  group_total config cs (pre ++ [a]) k =
  group_total config cs pre k + (if decide (group_key a = k) then voted_balance config cs a else 0).
Proof.
  unfold group_total. rewrite filter_app, fmap_app, zsum_app. f_equal.
  rewrite filter_cons, filter_nil.
  destruct (decide (group_key a = k)); simpl; lia.
Qed.

(** What one pass through the body of the loop does. *)
Lemma crosslink_step_Ok tab cls a tab' cls' :
  crosslink_step config cs (tab, cls) a = Ok (tab', cls') ->
  exists total voted,
    attestation_balances config cs a = Ok (total, voted) /\
    (forall k, default 0 (tab' !! k) =
               if decide (group_key a = k)
               then default 0 (tab !! group_key a) + voted
               else default 0 (tab !! k)) /\
    ((3 * (default 0 (tab !! group_key a) + voted) >= 2 * total /\
      exists r, cls !! shard_id a = Some r /\
                current_dynasty cs > dynasty r /\
                cls' = <[shard_id a := new_crosslink config cs a]> cls) \/
     ((3 * (default 0 (tab !! group_key a) + voted) < 2 * total \/
       exists r, cls !! shard_id a = Some r /\
                 current_dynasty cs <= dynasty r) /\
      cls' = cls)).
Proof.
  unfold crosslink_step. fold (group_key a). intros Hrun.
  bind_inv Hrun as [total voted] Hbal.
  bind_inv Hrun as old Hold. bind_inv Hrun as acc Hacc.
  apply getkey_Ok in Hold, Hacc.
  rewrite lookup_insert_eq in Hacc. injection Hacc as <-.
  assert (Hdef : old = default 0 (tab !! group_key a)).
  { destruct (tab !! group_key a) as [z|] eqn:Hk.
    - rewrite Hk in Hold. injection Hold as ->. reflexivity.
    - rewrite lookup_insert_eq in Hold. injection Hold as <-. reflexivity. }
  assert (Htab : forall tab0,
             tab0 = <[group_key a := old + voted]>
                      match tab !! group_key a with
                      | Some _ => tab
                      | None => <[group_key a := 0]> tab
                      end ->
             forall k, default 0 (tab0 !! k) =
                       if decide (group_key a = k)
                       then default 0 (tab !! group_key a) + voted
                       else default 0 (tab !! k)).
  { intros tab0 -> k. destruct (decide (group_key a = k)) as [<-|Hne].
    - rewrite lookup_insert_eq. simpl. lia.
    - rewrite lookup_insert_ne by exact Hne.
      destruct (tab !! group_key a); [reflexivity|].
      rewrite lookup_insert_ne by exact Hne. reflexivity. }
  exists total, voted. split; [exact Hbal|]. clear Hold. subst old.
  destruct (Z.geb_spec (3 * (default 0 (tab !! group_key a) + voted))
                       (2 * total)) as [Hge|Hlt].
  - bind_inv Hrun as r Hr. apply getitem_Ok in Hr.
    destruct (Z.gtb_spec (current_dynasty cs) (dynasty r)) as [Hgt|Hle];
      injection Hrun as <- <-; (split; [apply Htab; reflexivity|]).
    + left. split; [lia|]. exists r. repeat split; [assumption | lia].
    + right. split; [|reflexivity]. right. exists r. split; [assumption | lia].
  - injection Hrun as <- <-. split; [apply Htab; reflexivity|].
    right. split; [|reflexivity]. left. lia.
Qed.

Lemma no_promotion_snoc pre a s :
  no_promotion config cs pre s ->
  (shard_id a = s -> ~ promotes config cs pre a) ->
  no_promotion config cs (pre ++ [a]) s.
Proof.
  intros Hpre Ha p1 b p2 Hsplit Hshard.
  apply snoc_split in Hsplit as [(-> & -> & _)|(p2' & _ & ->)].
  - apply Ha, Hshard.
  - eapply Hpre; [reflexivity | exact Hshard].
Qed.

Lemma first_promotion_snoc pre a s b :
  first_promotion config cs pre s b -> first_promotion config cs (pre ++ [a]) s b.
Proof.
  intros (p1 & p2 & -> & Hshard & Hprom & Hfirst).
  exists p1, (p2 ++ [a]). rewrite <- app_assoc. auto.
Qed.

Lemma crosslink_inv_nil : crosslink_inv config cs [] (∅, crosslink_records cs).
Proof.
  split; [|split].
  - intros k. simpl. rewrite lookup_empty. reflexivity.
  - reflexivity.
  - intros s. left. split; [|reflexivity].
    intros p1 b p2 Hsplit. destruct p1; discriminate.
Qed.

Lemma crosslink_inv_step pre st a st' :
  crosslink_inv config cs pre st ->
  crosslink_step config cs st a = Ok st' ->
  crosslink_inv config cs (pre ++ [a]) st'.
Proof.
  destruct st as [tab cls], st' as [tab' cls'].
  intros (Htab & Hlen & Hcls) Hstep. simpl in Htab, Hlen, Hcls.
  apply crosslink_step_Ok in Hstep
    as (total & voted & Hbal & Htab' & Hbranch).
  assert (Hvoted : voted_balance config cs a = voted)
    by (unfold voted_balance; rewrite Hbal; reflexivity).
  assert (Htotal : committee_balance config cs a = total)
    by (unfold committee_balance; rewrite Hbal; reflexivity).
  rewrite Htab in Hbranch.
  split; [|split]; simpl.
  - intros k. rewrite Htab', group_total_snoc, Hvoted, !Htab.
    destruct (decide (group_key a = k)) as [<-|]; lia.
  - destruct Hbranch as [(_ & r & _ & _ & ->)|(_ & ->)];
      [rewrite length_insert|]; exact Hlen.
  - intros s. destruct Hbranch
      as [(Hge & r & Hr & Hgt & ->)|(Hno & ->)].
    + destruct (decide (s = shard_id a)) as [->|Hne].
      * right. exists a. split.
        -- destruct (Hcls (shard_id a)) as [(Hnone & Hsame)|(b & _ & Hb)].
           ++ exists pre, []. repeat split; try assumption.
              ** unfold reaches_threshold. rewrite Hvoted, Htotal. exact Hge.
              ** exists r. split; [congruence | exact Hgt].
           ++ exfalso. rewrite Hr in Hb. injection Hb as ->. simpl in Hgt. lia.
        -- apply list_lookup_insert_eq. apply lookup_lt_Some in Hr. exact Hr.
      * rewrite list_lookup_insert_ne by congruence.
        destruct (Hcls s) as [(Hnone & Hsame)|(b & Hfirst & Hb)].
        -- left. split; [|exact Hsame].
           apply no_promotion_snoc; [exact Hnone | congruence].
        -- right. exists b. split; [|exact Hb].
           apply first_promotion_snoc, Hfirst.
    + destruct (Hcls s) as [(Hnone & Hsame)|(b & Hfirst & Hb)].
      * left. split; [|exact Hsame].
        apply no_promotion_snoc; [exact Hnone|].
        intros <- (Hreach & r' & Hr' & Hgt).
        unfold reaches_threshold in Hreach. rewrite Hvoted, Htotal in Hreach.
        destruct Hno as [Hlt|(r & Hr & Hle)]; [lia|].
        assert (r' = r) as -> by congruence. lia.
      * right. exists b. split; [|exact Hb].
        apply first_promotion_snoc, Hfirst.
Qed.

Lemma crosslink_loop_inv pre :
  forall st,
    foldM (crosslink_step config cs) (∅, crosslink_records cs) pre = Ok st ->
    crosslink_inv config cs pre st.
Proof.
  induction pre as [|a pre IH] using rev_ind; intros st Hrun.
  - injection Hrun as <-. apply crosslink_inv_nil.
  - rewrite foldM_app in Hrun. bind_inv Hrun as st1 Hpre.
    simpl in Hrun. bind_inv Hrun as st2 Hstep. injection Hrun as <-.
    eapply crosslink_inv_step; [apply IH; exact Hpre | exact Hstep].
Qed.

Lemma process_updated_crosslinks_inv act block out :
  process_updated_crosslinks config cs act block = Ok out ->
  exists tab, crosslink_inv config cs (pending_attestations act) (tab, out).
Proof.
  unfold process_updated_crosslinks. intros Hrun.
  bind_inv Hrun as [tab cls] Hloop. injection Hrun as <-.
  exists tab. apply crosslink_loop_inv. exact Hloop.
Qed.

(** C3 (as the code has it): the loop of [process_updated_crosslinks]
    tests each pending attestation in turn.  If with attestation [a] of
    group [(s, h)] three times the group's balance accumulated so far
    ([a] included) is at least twice the balance of [a]'s committee, the
    record of [s] in the input state is of an earlier dynasty, and no
    earlier attestation of shard [s] had already reached its threshold,
    then the returned record of [s] is
    [{dynasty: current_dynasty, slot: last_state_recalc + cycle_length,
      hash: h}]; the first group to get there keeps the record.  The
    record of a shard for which no attestation does so is unchanged, the
    list keeps its length, and the records are those of the state
    [initialize_new_cycle] returns, where the slot is the new
    [last_state_recalc]. *)
Theorem process_updated_crosslinks_spec act block out :
  process_updated_crosslinks config cs act block = Ok out ->
  length out = length (crosslink_records cs) /\
  (forall pre a post,
      pending_attestations act = pre ++ a :: post ->
      reaches_threshold config cs pre a ->
      (exists r, crosslink_records cs !! shard_id a = Some r /\
                 current_dynasty cs > dynasty r) ->
      (forall p1 b p2,
          pre = p1 ++ b :: p2 -> shard_id b = shard_id a ->
          ~ reaches_threshold config cs p1 b) ->
      out !! shard_id a =
        Some {| dynasty := current_dynasty cs;
                crosslink_slot := last_state_recalc cs + cycle_length config;
                crosslink_hash := shard_block_hash a |}) /\
  (forall s,
      (forall pre a post,
          pending_attestations act = pre ++ a :: post ->
          shard_id a = s -> ~ promotes config cs pre a) ->
      out !! s = crosslink_records cs !! s) /\
  (forall cs' act',
      initialize_new_cycle config cs act block = Ok (cs', act') ->
      crosslink_records cs' = out /\
      last_state_recalc cs' = last_state_recalc cs + cycle_length config).
Proof.
  intros Hrun.
  destruct (process_updated_crosslinks_inv act block out Hrun)
    as (tab & _ & Hlen & Hcls).
  simpl in Hlen, Hcls. split; [exact Hlen|]. split; [|split].
  - intros pre a post Hsplit Hreach Hrec Hfirst.
    destruct (Hcls (shard_id a)) as [(Hnone & _)|(b & Hb & Hout)].
    + exfalso. apply (Hnone pre a post Hsplit eq_refl). split; assumption.
    + destruct Hb as (p1 & p2 & Hsplit' & Hshard & Hprom & Hnone).
      rewrite Hsplit in Hsplit'.
      destruct (split_compare _ _ _ _ _ _ Hsplit')
        as [(-> & -> & _)|[[m ->]|[m ->]]].
      * exact Hout.
      * exfalso. apply (Hnone pre a m eq_refl eq_refl). split; assumption.
      * exfalso. apply (Hfirst p1 b m eq_refl Hshard). apply Hprom.
  - intros s Hnone.
    destruct (Hcls s) as [(_ & Hsame)|(b & Hb & _)]; [exact Hsame|].
    exfalso. destruct Hb as (p1 & p2 & Hsplit & Hshard & Hprom & _).
    apply (Hnone p1 b p2 Hsplit Hshard Hprom).
  - intros cs' act' Hinit.
    apply initialize_new_cycle_Ok in Hinit
      as (lj & js & lf & crs & vs & _ & Hcrs & _ & -> & _).
    simpl. split; [congruence | reflexivity].
Qed.

End Crosslinks.

Section CrosslinksOnSmallChain.

#[local] Existing Instance Scenario.externals.

Lemma process_updated_crosslinks_spec_witness :
  exists out,
    process_updated_crosslinks Scenario.cfg Scenario.cs0 Scenario.as12
                               Scenario.block3 = Ok out /\
    reaches_threshold Scenario.cfg Scenario.cs0 [] Scenario.att1 /\
    out !! 0%nat =
      Some {| dynasty := 1; crosslink_slot := 2;
              crosslink_hash := Scenario.h 7 |} /\
    out !! 1%nat = Some Scenario.genesis_crosslink.
Proof.
  destruct (process_updated_crosslinks Scenario.cfg Scenario.cs0 Scenario.as12
                                       Scenario.block3)
    as [out|e] eqn:Hrun; [|vm_compute in Hrun; discriminate].
  exists out. split; [reflexivity|].
  assert (Hreach : reaches_threshold Scenario.cfg Scenario.cs0 [] Scenario.att1)
    by (vm_compute; discriminate).
  split; [exact Hreach|].
  destruct (process_updated_crosslinks_spec
              Scenario.cfg Scenario.cs0 Scenario.as12 Scenario.block3 out Hrun)
    as (_ & Hpromote & Hkeep & _).
  split.
  - apply (Hpromote [] Scenario.att1 [Scenario.att2] eq_refl Hreach).
    + exists Scenario.genesis_crosslink. split; reflexivity.
    + intros p1 b p2 Hsplit. destruct p1; discriminate.
  - rewrite (Hkeep 1%nat); [reflexivity|].
    intros pre a post Hsplit Hshard.
    destruct pre as [|a1 pre]; [|destruct pre as [|a2 pre]];
      simpl in Hsplit.
    + injection Hsplit as <- _. discriminate.
    + injection Hsplit as _ <- _. discriminate.
    + injection Hsplit as _ _ Hsplit. destruct pre; discriminate.
Defined.

(** C3, as stated, fails when two groups of one shard both reach the
    threshold: [att1] and [att2] carry the whole committee of shard 0 for
    two different shard blocks, the record of shard 0 is of an earlier
    dynasty, and the returned record has the hash of the first group, not
    that of the group of [att2]. *)
Lemma second_group_is_not_promoted :
  exists out,
    process_updated_crosslinks Scenario.cfg Scenario.cs0 Scenario.as12
                               Scenario.block3 = Ok out /\
    3 * group_total Scenario.cfg Scenario.cs0
          (pending_attestations Scenario.as12)
          (group_key Scenario.att2)
      >= 2 * committee_balance Scenario.cfg Scenario.cs0 Scenario.att2 /\
    (exists r, crosslink_records Scenario.cs0 !! shard_id Scenario.att2 = Some r /\
               current_dynasty Scenario.cs0 > dynasty r) /\
    out !! shard_id Scenario.att2 =
      Some {| dynasty := 1; crosslink_slot := 2;
              crosslink_hash := shard_block_hash Scenario.att1 |} /\
    out !! shard_id Scenario.att2 <>
      Some {| dynasty := current_dynasty Scenario.cs0;
              crosslink_slot := last_state_recalc Scenario.cs0
                                + cycle_length Scenario.cfg;
              crosslink_hash := shard_block_hash Scenario.att2 |}.
Proof.
  destruct (process_updated_crosslinks Scenario.cfg Scenario.cs0 Scenario.as12
                                       Scenario.block3)
    as [out|e] eqn:Hrun; [|vm_compute in Hrun; discriminate].
  exists out. split; [reflexivity|].
  split; [vm_compute; discriminate|].
  split; [exists Scenario.genesis_crosslink; split; reflexivity|].
  assert (Hout : out !! shard_id Scenario.att2 =
                 Some {| dynasty := 1; crosslink_slot := 2;
                         crosslink_hash := shard_block_hash Scenario.att1 |}).
  { vm_compute in Hrun. injection Hrun as <-. reflexivity. }
  rewrite Hout. split; [reflexivity|].
  vm_compute. discriminate.
Qed.

End CrosslinksOnSmallChain.

(** ** The driver as a whole *)

Section DriverProperties.

Context `{Externals}.
Variable config : Config.

(** *** Where the loop stops *)

Lemma compute_cycle_transitions_stops fuel :
  forall cs act block cs' act',
    compute_cycle_transitions config fuel cs act block = Some (Ok (cs', act')) ->
    exists k : nat,
      last_state_recalc cs'
        = last_state_recalc cs + Z.of_nat k * cycle_length config /\
      slot_number block < last_state_recalc cs' + cycle_length config /\
      ((0 < k)%nat -> last_state_recalc cs' <= slot_number block).
Proof.
  induction fuel as [|fuel IH]; intros cs act block cs' act'; simpl;
    destruct (Z.geb_spec (slot_number block)
                (last_state_recalc cs + cycle_length config)) as [Hge|Hlt];
    try discriminate;
    try (intros [= <- <-]; exists 0%nat; split; [lia|]; split; [lia|]; lia).
  destruct (cycle_iteration config cs act block) as [[cs1 act1]|e] eqn:Hit;
    [|discriminate].
  intros Hrun. apply IH in Hrun as (k & Hk & Hstop & Hran).
  apply cycle_iteration_recalc in Hit.
  exists (S k). split; [lia|]. split; [exact Hstop|].
  intros _. destruct k as [|k]; [|apply Hran; lia].
  rewrite Hk, Hit. lia.
Qed.

(** X1: with [cycle_length >= 1], when [compute_cycle_transitions] returns
    the crystallized state has caught up with the block: its
    [last_state_recalc] is the input's moved forward by the whole cycles
    that fit up to the block's slot, and the block's slot is in the cycle
    that starts there. *)
Theorem compute_cycle_transitions_catches_up fuel cs act block cs' act' :
  1 <= cycle_length config ->
  compute_cycle_transitions config fuel cs act block = Some (Ok (cs', act')) ->
  last_state_recalc cs'
    = last_state_recalc cs
      + cycle_length config
        * Z.max 0 ((slot_number block - last_state_recalc cs)
                   / cycle_length config) /\
  slot_number block < last_state_recalc cs' + cycle_length config.
Proof.
  intros Hcl Hrun.
  apply compute_cycle_transitions_stops in Hrun as (k & Hk & Hstop & Hran).
  split; [|exact Hstop]. rewrite Hk. f_equal.
  destruct k as [|k].
  - assert (Hdiv : (slot_number block - last_state_recalc cs)
                   / cycle_length config <= 0).
    { apply Z.lt_succ_r. apply Z.div_lt_upper_bound; lia. }
    lia.
  - specialize (Hran ltac:(lia)).
    assert (Hdiv : (slot_number block - last_state_recalc cs)
                   / cycle_length config = Z.of_nat (S k)).
    { symmetry. apply Z.div_unique_pos
        with (r := slot_number block - last_state_recalc cs
                   - Z.of_nat (S k) * cycle_length config); lia. }
    rewrite Hdiv. lia.
Qed.

(** *** The order of finalized, justified and recalculated slots *)

Lemma justification_loop_ordered cs act n lj js lf :
  (n <= Z.to_nat (cycle_length config))%nat ->
  finality_ordered cs ->
  justification_loop config cs act n = Ok (lj, js, lf) ->
  lf <= lj /\ lj <= last_state_recalc cs.
Proof.
  intros Hn [Hfj Hjr]. unfold justification_loop. intros Hrun.
  apply (foldM_invariant
           (fun st : Z * Z * Z =>
              st.2 <= st.1.1 /\ st.1.1 <= last_state_recalc cs)) in Hrun.
  - exact Hrun.
  - intros [[lj1 js1] lf1] i [[lj2 js2] lf2] Hi [Hlf Hlj] Hstep.
    apply elem_of_seq in Hi. simpl in Hlf, Hlj |- *.
    unfold justification_step in Hstep. bind_inv Hstep as block_hash Hhash.
    destruct (3 * vote_balance_of act block_hash >=? 2 * total_deposits cs).
    + destruct (Z.geb_spec (js1 + 1) (cycle_length config + 1));
        injection Hstep as <- <- <-; lia.
    + destruct (Z.geb_spec 0 (cycle_length config + 1));
        injection Hstep as <- <- <-; lia.
  - simpl. lia.
Qed.

Lemma cycle_iteration_ordered cs act block cs' act' :
  0 <= cycle_length config ->
  finality_ordered cs ->
  cycle_iteration config cs act block = Ok (cs', act') ->
  finality_ordered cs'.
Proof.
  intros Hcl Hord Hit.
  apply cycle_iteration_Ok in Hit as (cs1 & Hinit & Hdyn).
  apply initialize_new_cycle_Ok in Hinit
    as (lj & js & lf & crs & vs & Hloop & _ & _ & -> & _).
  apply justification_loop_ordered in Hloop; [|lia|exact Hord].
  assert (Hcs1 : forall x, finality_ordered
            {| validators := vs;
               last_state_recalc := last_state_recalc cs + cycle_length config;
               shard_and_committee_for_slots := x;
               last_justified_slot := lj;
               justified_streak := js;
               last_finalized_slot := lf;
               current_dynasty := current_dynasty cs;
               crosslink_records := crs;
               dynasty_seed := dynasty_seed cs;
               dynasty_start := dynasty_start cs |})
    by (intros x; split; simpl; lia).
  destruct Hdyn as [->|Hdyn]; [apply Hcs1|].
  apply compute_dynasty_transition_Ok in Hdyn as (sh & -> & _).
  split; simpl; lia.
Qed.

Lemma compute_cycle_transitions_ordered fuel :
  0 <= cycle_length config ->
  forall cs act block cs' act',
    finality_ordered cs ->
    compute_cycle_transitions config fuel cs act block = Some (Ok (cs', act')) ->
    finality_ordered cs'.
Proof.
  intros Hcl. induction fuel as [|fuel IH]; intros cs act block cs' act' Hord;
    simpl;
    destruct (slot_number block >=?
              last_state_recalc cs + cycle_length config);
    try discriminate;
    try (intros [= <- <-]; exact Hord).
  destruct (cycle_iteration config cs act block) as [[cs1 act1]|e] eqn:Hit;
    [|discriminate].
  apply IH. eapply cycle_iteration_ordered; eassumption.
Qed.

(** X2: with [cycle_length >= 0], a transition that returns keeps
    [last_finalized_slot <= last_justified_slot <= last_state_recalc]:
    a slot is finalized only below a slot justified in the same pass, and
    only slots before the recalc point are justified. *)
Theorem finality_order_kept fuel cs act parent_block block cs' act' :
  0 <= cycle_length config ->
  finality_ordered cs ->
  compute_state_transition config fuel (cs, act) parent_block block
    = Some (Ok (cs', act')) ->
  finality_ordered cs'.
Proof.
  intros Hcl Hord. unfold compute_state_transition.
  destruct (process_block _ _ _ _ _) as [act1|e]; [|discriminate].
  apply compute_cycle_transitions_ordered; assumption.
Qed.

End DriverProperties.

(** ** What a transition leaves alone *)

Lemma same_identity_set_balance v0 v b :
  same_identity v0 v -> same_identity v0 (set_balance v b).
Proof. intros H. exact H. Qed.

Lemma apply_rewards_loop_identity ffg crosslink idxs vs0 :
  forall vs out,
    Forall2 same_identity vs0 vs ->
    foldM (apply_reward ffg crosslink) vs idxs = Ok out ->
    Forall2 same_identity vs0 out.
Proof.
  intros vs out Hvs Hrun.
  apply (foldM_invariant (Forall2 same_identity vs0)) in Hrun;
    [exact Hrun | | exact Hvs].
  clear. intros vs i vs' _ Hvs Hstep.
  apply apply_reward_Ok in Hstep as (v & f & c & Hv & _ & _ & ->).
  destruct (Forall2_lookup_r _ _ _ _ _ Hvs Hv) as (v0 & Hv0 & Hsame).
  rewrite <- (list_insert_id vs0 i v0 Hv0).
  apply Forall2_insert; [exact Hvs|].
  apply same_identity_set_balance, Hsame.
Qed.

Section FrameProperties.

Context `{Externals}.
Variable config : Config.

Lemma cycle_iteration_frame cs act block cs' act' :
  cycle_iteration config cs act block = Ok (cs', act') ->
  Forall2 same_identity (validators cs) (validators cs') /\
  chain act' = chain act /\
  recent_block_hashes act' = recent_block_hashes act /\
  block_vote_cache act' = block_vote_cache act /\
  pending_attestations act' =
    filter (fun a => slot a >= last_state_recalc cs) (pending_attestations act) /\
  dynasty_seed cs' = dynasty_seed cs.
Proof.
  intros Hit. apply cycle_iteration_Ok in Hit as (cs1 & Hinit & Hdyn).
  apply initialize_new_cycle_Ok in Hinit
    as (lj & js & lf & crs & vs & _ & _ & Hvs & -> & ->).
  assert (Hid : Forall2 same_identity (validators cs) vs).
  { unfold apply_rewards_and_penalties in Hvs.
    bind_inv Hvs as ffg Hffg. bind_inv Hvs as crosslink Hcross.
    eapply apply_rewards_loop_identity; [|exact Hvs].
    apply Forall2_same_length_lookup_2; [reflexivity|].
    intros i v v' Hv Hv'. assert (v' = v) as -> by congruence.
    repeat split. }
  destruct Hdyn as [->|Hdyn].
  - repeat split; try reflexivity. exact Hid.
  - apply compute_dynasty_transition_Ok in Hdyn as (sh & -> & _).
    repeat split; try reflexivity. exact Hid.
Qed.

Lemma same_identity_trans_list vs1 vs2 vs3 :
  Forall2 same_identity vs1 vs2 -> Forall2 same_identity vs2 vs3 ->
  Forall2 same_identity vs1 vs3.
Proof.
  intros H12 H23. revert vs3 H23.
  induction H12 as [|v1 v2 vs1 vs2 Hv _ IH]; intros vs3 H23;
    inversion H23 as [|v2' v3 vs2' vs3' Hv' H23']; subst; constructor.
  - destruct Hv as (? & ? & ?), Hv' as (? & ? & ?). repeat split; congruence.
  - apply IH. assumption.
Qed.

(** The loop: the frame of every pass, and the pending attestations after
    the last one. *)
Lemma compute_cycle_transitions_frame fuel :
  0 <= cycle_length config ->
  forall cs act block cs' act',
    compute_cycle_transitions config fuel cs act block = Some (Ok (cs', act')) ->
    Forall2 same_identity (validators cs) (validators cs') /\
    chain act' = chain act /\
    recent_block_hashes act' = recent_block_hashes act /\
    block_vote_cache act' = block_vote_cache act /\
    dynasty_seed cs' = dynasty_seed cs /\
    (slot_number block < last_state_recalc cs + cycle_length config /\
     last_state_recalc cs' = last_state_recalc cs /\
     pending_attestations act' = pending_attestations act \/
     slot_number block >= last_state_recalc cs + cycle_length config /\
     pending_attestations act' =
       filter (fun a => slot a >= last_state_recalc cs' - cycle_length config)
              (pending_attestations act)).
Proof.
  intros Hcl.
  induction fuel as [|fuel IH]; intros cs act block cs' act'; simpl;
    destruct (Z.geb_spec (slot_number block)
                (last_state_recalc cs + cycle_length config)) as [Hge|Hlt];
    try discriminate;
    try (intros [= <- <-]; repeat split; auto;
         apply Forall2_same_length_lookup_2; [reflexivity|];
         intros i v v' Hv Hv'; assert (v' = v) as -> by congruence;
         repeat split).
  destruct (cycle_iteration config cs act block) as [[cs1 act1]|e] eqn:Hit;
    [|discriminate].
  intros Hrun. pose proof (cycle_iteration_recalc _ _ _ _ _ _ Hit) as Hrecalc.
  apply cycle_iteration_frame in Hit
    as (Hid & Hchain & Hhashes & Hcache & Hpending & Hseed).
  pose proof (compute_cycle_transitions_stops _ _ _ _ _ _ _ Hrun)
    as (k & Hk & _ & _).
  apply IH in Hrun
    as (Hid' & Hchain' & Hhashes' & Hcache' & Hseed' & Hpending').
  split; [eapply same_identity_trans_list; eassumption|].
  repeat (split; [congruence|]).
  right. split; [lia|].
  destruct Hpending' as [(_ & Hsame & ->)|[_ ->]]; rewrite Hpending.
  - apply list_filter_iff. intros a. lia.
  - rewrite list_filter_filter. apply list_filter_iff. intros a. nia.
Qed.

(** X3: a transition that returns changes no validator's identity: the
    list keeps its length, and at every index the public key and the two
    dynasty bounds are those of the parent state; only balances move. *)
Theorem validators_keep_identity fuel cs act parent_block block cs' act' :
  0 <= cycle_length config ->
  compute_state_transition config fuel (cs, act) parent_block block
    = Some (Ok (cs', act')) ->
  length (validators cs') = length (validators cs) /\
  forall i v',
    validators cs' !! i = Some v' ->
    exists v, validators cs !! i = Some v /\ same_identity v v'.
Proof.
  intros Hcl. unfold compute_state_transition.
  destruct (process_block _ _ _ _ _) as [act1|e]; [|discriminate].
  intros Hrun.
  apply compute_cycle_transitions_frame in Hrun as (Hid & _); [|exact Hcl].
  split; [symmetry; eapply Forall2_length; exact Hid|].
  intros i v' Hv'. eapply Forall2_lookup_r; eassumption.
Qed.

Lemma process_block_Ok_state cs act block parent_block act' :
  process_block config cs act block parent_block = Ok act' ->
  pending_attestations act' = pending_attestations act ++ attestations block /\
  recent_block_hashes act' = recent_block_hashes act /\
  chain act' = {| chain_head := Some block;
                  blocks := blocks (chain act) ++ [block] |} /\
  process_attestations config cs act block parent_block
                       (block_vote_cache act) (attestations block)
    = Ok (block_vote_cache act').
Proof.
  unfold process_block. intros Hrun.
  bind_inv Hrun as [] Hprop. bind_inv Hrun as cache Hatts.
  injection Hrun as <-. auto.
Qed.

(** X4: a transition that returns appends the block to the chain and makes
    it the head, and leaves as recent block hashes the parent's window
    shifted to the block's slot; the cycles that run touch neither. *)
Theorem transition_extends_chain fuel cs act parent_block block cs' act' :
  0 <= cycle_length config ->
  compute_state_transition config fuel (cs, act) parent_block block
    = Some (Ok (cs', act')) ->
  chain act' = {| chain_head := Some block;
                  blocks := blocks (chain act) ++ [block] |} /\
  recent_block_hashes act' =
    get_new_recent_block_hashes (recent_block_hashes act)
                                (slot_number parent_block)
                                (slot_number block) (parent_hash block).
Proof.
  intros Hcl. unfold compute_state_transition.
  destruct (process_block _ _ _ _ _) as [act1|e] eqn:Hblock; [|discriminate].
  intros Hrun.
  apply compute_cycle_transitions_frame in Hrun
    as (_ & Hchain & Hhashes & _); [|exact Hcl].
  apply process_block_Ok_state in Hblock as (_ & Hhashes1 & Hchain1 & _).
  rewrite Hchain, Hhashes, Hchain1, Hhashes1. split; reflexivity.
Qed.

(** X5: the attestations pending after a transition that returns
    ([cycle_length >= 0]): the parent's followed by the block's when no
    cycle ran, and otherwise those of them whose slot is at least the new
    [last_state_recalc - cycle_length], in the same order: one cycle of
    attestations is kept behind the recalc point. *)
Theorem transition_pending_attestations
    fuel cs act parent_block block cs' act' :
  0 <= cycle_length config ->
  compute_state_transition config fuel (cs, act) parent_block block
    = Some (Ok (cs', act')) ->
  (slot_number block < last_state_recalc cs + cycle_length config ->
   pending_attestations act' =
     pending_attestations act ++ attestations block) /\
  (slot_number block >= last_state_recalc cs + cycle_length config ->
   pending_attestations act' =
     filter (fun a => slot a >= last_state_recalc cs' - cycle_length config)
            (pending_attestations act ++ attestations block)).
Proof.
  intros Hcl. unfold compute_state_transition.
  destruct (process_block _ _ _ _ _) as [act1|e] eqn:Hblock; [|discriminate].
  intros Hrun.
  apply process_block_Ok_state in Hblock as (Hpending1 & _).
  simpl in Hpending1. rewrite <- Hpending1.
  apply compute_cycle_transitions_frame in Hrun
    as (_ & _ & _ & _ & _ & [(Hlt & _ & Hpending)|[Hge Hpending]]);
    [| |exact Hcl];
    (split; intros Hslot; [try exact Hpending; lia | try exact Hpending; lia]).
Qed.

End FrameProperties.

(** ** The block vote cache *)

Lemma zsum_Permutation (l1 l2 : list Z) : l1 ≡ₚ l2 -> zsum l1 = zsum l2.
Proof.
  unfold zsum. induction 1; simpl; lia.
Qed.

Lemma cache_grows_refl c : cache_grows c c.
Proof. intros h e He. exists e. split; [exact He | reflexivity]. Qed.

Lemma cache_grows_trans c1 c2 c3 :
  cache_grows c1 c2 -> cache_grows c2 c3 -> cache_grows c1 c3.
Proof.
  intros H12 H23 h e He.
  destruct (H12 h e He) as (e2 & He2 & Hsub2).
  destruct (H23 h e2 He2) as (e3 & He3 & Hsub3).
  exists e3. split; [exact He3 | set_solver].
Qed.

Lemma add_votes_unfold cs att members parent_hash cache :
  add_votes cs att members parent_hash cache =
  foldM (add_vote cs att parent_hash) cache (enumerate members).
Proof. unfold add_votes. f_equal. Qed.

(** What one member does to the cache: nothing, or one new voter with its
    balance. *)
Lemma add_vote_Ok cs att ph cache ci vi cache' :
  add_vote cs att ph cache (ci, vi) = Ok cache' ->
  (cache' = cache /\
   (has_voted (attester_bitfield att) ci = Ok false \/
    exists e, cache !! ph = Some e /\ vi ∈ voter_indices e)) \/
  (has_voted (attester_bitfield att) ci = Ok true /\
   exists e v,
     cache !! ph = Some e /\ (vi ∉ voter_indices e) /\
     validators cs !! vi = Some v /\
     cache' = <[ph := {| voter_indices := {[vi]} ∪ voter_indices e;
                         total_voter_deposits :=
                           total_voter_deposits e + balance v |}]> cache).
Proof.
  unfold add_vote. intros Hrun. bind_inv Hrun as [|] Hvote.
  - bind_inv Hrun as e He. apply getkey_Ok in He.
    destruct (bool_decide_reflect (vi ∉ voter_indices e)) as [Hnew|Hold].
    + bind_inv Hrun as v Hv. apply getitem_Ok in Hv.
      injection Hrun as <-. right. split; [exact Hvote|]. eauto 10.
    + injection Hrun as <-. left. split; [reflexivity|]. right.
      exists e. split; [exact He|].
      destruct (decide (vi ∈ voter_indices e)); [assumption | contradiction].
  - injection Hrun as <-. left. auto.
Qed.

Lemma add_vote_grows cs att ph cache m cache' :
  add_vote cs att ph cache m = Ok cache' -> cache_grows cache cache'.
Proof.
  destruct m as [ci vi]. intros Hrun.
  apply add_vote_Ok in Hrun as [[-> _]|(_ & e & v & He & _ & _ & ->)];
    [apply cache_grows_refl|].
  intros h e0 He0. destruct (decide (ph = h)) as [<-|Hne].
  - rewrite lookup_insert_eq. eexists. split; [reflexivity|]. simpl.
    assert (e0 = e) as -> by congruence. set_solver.
  - rewrite lookup_insert_ne by exact Hne. exists e0.
    split; [exact He0 | reflexivity].
Qed.

Lemma add_vote_frame cs att ph cache m cache' h :
  add_vote cs att ph cache m = Ok cache' -> h <> ph ->
  cache' !! h = cache !! h.
Proof.
  destruct m as [ci vi]. intros Hrun Hne.
  apply add_vote_Ok in Hrun as [[-> _]|(_ & e & v & _ & _ & _ & ->)];
    [reflexivity|].
  apply lookup_insert_ne. congruence.
Qed.

Lemma add_vote_consistent cs att ph cache m cache' :
  add_vote cs att ph cache m = Ok cache' ->
  cache_consistent cs cache -> cache_consistent cs cache'.
Proof.
  destruct m as [ci vi]. intros Hrun Hcons.
  apply add_vote_Ok in Hrun as [[-> _]|(_ & e & v & He & Hnew & Hv & ->)];
    [exact Hcons|].
  intros h e0. destruct (decide (ph = h)) as [<-|Hne].
  - rewrite lookup_insert_eq. intros [= <-]. simpl.
    rewrite (zsum_Permutation
               _ (balance_at cs <$> (vi :: elements (voter_indices e)))).
    + rewrite fmap_cons.
      change (zsum (balance_at cs vi
                    :: (balance_at cs <$> elements (voter_indices e))))
        with (balance_at cs vi
              + zsum (balance_at cs <$> elements (voter_indices e))).
      rewrite <- (Hcons ph e He). unfold balance_at. rewrite Hv. lia.
    + apply fmap_Permutation, elements_union_singleton, Hnew.
  - rewrite lookup_insert_ne by exact Hne. apply Hcons.
Qed.

Lemma add_votes_grows cs att members ph cache cache' :
  add_votes cs att members ph cache = Ok cache' -> cache_grows cache cache'.
Proof.
  rewrite add_votes_unfold. intros Hrun.
  apply (foldM_invariant (cache_grows cache)) in Hrun;
    [exact Hrun | | apply cache_grows_refl].
  intros c m c' _ Hc Hstep. eapply cache_grows_trans; [exact Hc|].
  eapply add_vote_grows. exact Hstep.
Qed.

Lemma add_votes_frame cs att members ph cache cache' h :
  add_votes cs att members ph cache = Ok cache' -> h <> ph ->
  cache' !! h = cache !! h.
Proof.
  rewrite add_votes_unfold. intros Hrun Hne.
  apply (foldM_invariant (fun c => c !! h = cache !! h)) in Hrun;
    [exact Hrun | | reflexivity].
  intros c m c' _ Hc Hstep. rewrite <- Hc.
  eapply add_vote_frame; eassumption.
Qed.

Lemma add_votes_consistent cs att members ph cache cache' :
  add_votes cs att members ph cache = Ok cache' ->
  cache_consistent cs cache -> cache_consistent cs cache'.
Proof.
  rewrite add_votes_unfold. intros Hrun Hcons.
  apply (foldM_invariant (cache_consistent cs)) in Hrun;
    [exact Hrun | | exact Hcons].
  intros c m c' _ Hc Hstep. eapply add_vote_consistent; eassumption.
Qed.

(** After the inner loop every member whose bit is set is a voter of the
    parent hash. *)
Lemma add_votes_all_voted cs att ph members :
  forall cache cache',
    foldM (add_vote cs att ph) cache members = Ok cache' ->
    forall ci vi,
      (ci, vi) ∈ members ->
      has_voted (attester_bitfield att) ci = Ok true ->
      exists e, cache' !! ph = Some e /\ vi ∈ voter_indices e.
Proof.
  induction members as [|[ci0 vi0] members IH]; intros cache cache' Hrun ci vi Hin Hvote;
    [inversion Hin|].
  simpl in Hrun. bind_inv Hrun as cache1 Hstep.
  apply elem_of_cons in Hin as [[= -> ->]|Hin]; [|eapply IH; eassumption].
  assert (Hgrow : cache_grows cache1 cache').
  { apply (foldM_invariant (cache_grows cache1)) in Hrun;
      [exact Hrun | | apply cache_grows_refl].
    intros c m c' _ Hc Hs. eapply cache_grows_trans; [exact Hc|].
    eapply add_vote_grows. exact Hs. }
  assert (Hnow : exists e, cache1 !! ph = Some e /\ vi0 ∈ voter_indices e).
  { apply add_vote_Ok in Hstep
      as [[-> [Hno|Hyes]]|(_ & e & v & _ & _ & _ & ->)].
    - congruence.
    - exact Hyes.
    - rewrite lookup_insert_eq. eexists. split; [reflexivity|]. simpl.
      set_solver. }
  destruct Hnow as (e & He & Hvi).
  destruct (Hgrow ph e He) as (e' & He' & Hsub).
  exists e'. split; [exact He' | set_solver].
Qed.

(** With every set bit already a voter, the inner loop changes nothing. *)
Lemma add_votes_nothing_new cs att ph cache members :
  (forall ci vi, (ci, vi) ∈ members ->
                 exists b, has_voted (attester_bitfield att) ci = Ok b /\
                           (b = true ->
                            exists e, cache !! ph = Some e /\
                                      vi ∈ voter_indices e)) ->
  foldM (add_vote cs att ph) cache members = Ok cache.
Proof.
  induction members as [|[ci vi] members IH]; intros Hall; [reflexivity|].
  simpl. destruct (Hall ci vi) as (b & Hvote & Hin); [left|].
  rewrite Hvote. simpl. destruct b.
  - destruct (Hin eq_refl) as (e & He & Hvi).
    unfold getkey. rewrite He. simpl.
    rewrite bool_decide_eq_false_2 by (intros Hno; contradiction).
    simpl. apply IH. intros ci' vi' Hin'. apply Hall. right. exact Hin'.
  - simpl. apply IH. intros ci' vi' Hin'. apply Hall. right. exact Hin'.
Qed.

Lemma add_votes_for_grows cs att members cache ph cache' :
  add_votes_for cs att members cache ph = Ok cache' -> cache_grows cache cache'.
Proof.
  unfold add_votes_for.
  destruct (bool_decide (ph ∈ oblique_parent_hashes att));
    [intros [= <-]; apply cache_grows_refl|].
  intros Hrun. apply add_votes_grows in Hrun.
  eapply cache_grows_trans; [|exact Hrun].
  destruct (cache !! ph) eqn:Hph; [apply cache_grows_refl|].
  intros h e He. exists e. split; [|reflexivity].
  rewrite lookup_insert_ne; [exact He | congruence].
Qed.

Lemma add_votes_for_frame cs att members cache ph cache' h :
  add_votes_for cs att members cache ph = Ok cache' ->
  h <> ph \/ h ∈ oblique_parent_hashes att ->
  cache' !! h = cache !! h.
Proof.
  unfold add_votes_for.
  destruct (bool_decide_reflect (ph ∈ oblique_parent_hashes att)) as [Hobl|Hobl];
    [intros [= <-]; reflexivity|].
  intros Hrun Hh.
  assert (Hne : h <> ph) by (destruct Hh; congruence).
  rewrite (add_votes_frame _ _ _ _ _ _ _ Hrun Hne).
  destruct (cache !! ph); [reflexivity|].
  apply lookup_insert_ne. congruence.
Qed.

Lemma add_votes_for_consistent cs att members cache ph cache' :
  add_votes_for cs att members cache ph = Ok cache' ->
  cache_consistent cs cache -> cache_consistent cs cache'.
Proof.
  unfold add_votes_for.
  destruct (bool_decide (ph ∈ oblique_parent_hashes att));
    [intros [= <-]; auto|].
  intros Hrun Hcons. eapply add_votes_consistent; [exact Hrun|].
  destruct (cache !! ph) eqn:Hph; [exact Hcons|].
  intros h e. destruct (decide (ph = h)) as [<-|Hne].
  - rewrite lookup_insert_eq. intros [= <-]. simpl.
    rewrite elements_empty. reflexivity.
  - rewrite lookup_insert_ne by exact Hne. apply Hcons.
Qed.

(** After the outer loop, for every signed parent hash that is not
    oblique, every bit could be read and every member whose bit is set is
    a voter. *)
Lemma add_votes_for_all_voted cs att members parent_hashes :
  forall cache cache',
    foldM (add_votes_for cs att members) cache parent_hashes = Ok cache' ->
    forall ph,
      ph ∈ parent_hashes -> ph ∉ oblique_parent_hashes att ->
      forall ci vi,
        (ci, vi) ∈ enumerate members ->
        exists b, has_voted (attester_bitfield att) ci = Ok b /\
                  (b = true ->
                   exists e, cache' !! ph = Some e /\ vi ∈ voter_indices e).
Proof.
  induction parent_hashes as [|ph0 parent_hashes IH];
    intros cache cache' Hrun ph Hin Hobl ci vi Hmem; [inversion Hin|].
  simpl in Hrun. bind_inv Hrun as cache1 Hstep.
  apply elem_of_cons in Hin as [->|Hin]; [|eapply IH; eassumption].
  assert (Hgrow : cache_grows cache1 cache').
  { apply (foldM_invariant (cache_grows cache1)) in Hrun;
      [exact Hrun | | apply cache_grows_refl].
    intros c h c' _ Hc Hs. eapply cache_grows_trans; [exact Hc|].
    eapply add_votes_for_grows. exact Hs. }
  unfold add_votes_for in Hstep.
  rewrite bool_decide_eq_false_2 in Hstep by exact Hobl.
  rewrite add_votes_unfold in Hstep.
  destruct (foldM_Ok_each _ _ _ _ Hstep (ci, vi) Hmem) as (c1 & c2 & Hone).
  unfold add_vote in Hone. bind_inv Hone as b Hvote.
  exists b. split; [exact Hvote|]. intros ->.
  destruct (add_votes_all_voted _ _ _ _ _ _ Hstep ci vi Hmem Hvote)
    as (e & He & Hvi).
  destruct (Hgrow ph0 e He) as (e' & He' & Hsub).
  exists e'. split; [exact He' | set_solver].
Qed.

Lemma add_votes_for_nothing_new cs att members cache parent_hashes :
  (forall ph,
      ph ∈ parent_hashes -> ph ∉ oblique_parent_hashes att ->
      forall ci vi,
        (ci, vi) ∈ enumerate members ->
        exists b, has_voted (attester_bitfield att) ci = Ok b /\
                  (b = true ->
                   exists e, cache !! ph = Some e /\ vi ∈ voter_indices e)) ->
  (forall ph,
      ph ∈ parent_hashes -> ph ∉ oblique_parent_hashes att ->
      is_Some (cache !! ph)) ->
  foldM (add_votes_for cs att members) cache parent_hashes = Ok cache.
Proof.
  induction parent_hashes as [|ph parent_hashes IH]; intros Hall Hsome;
    [reflexivity|].
  simpl.
  assert (Hstep : add_votes_for cs att members cache ph = Ok cache).
  { unfold add_votes_for.
    destruct (bool_decide_reflect (ph ∈ oblique_parent_hashes att))
      as [Hobl|Hobl]; [reflexivity|].
    destruct (Hsome ph) as [e He]; [left | exact Hobl |].
    rewrite He, add_votes_unfold. apply add_votes_nothing_new.
    intros ci vi Hmem. apply Hall; [left | exact Hobl | exact Hmem]. }
  rewrite Hstep. simpl. apply IH.
  - intros ph' Hin. apply Hall. right. exact Hin.
  - intros ph' Hin. apply Hsome. right. exact Hin.
Qed.

Lemma add_votes_for_entry cs att members parent_hashes :
  forall cache cache',
    foldM (add_votes_for cs att members) cache parent_hashes = Ok cache' ->
    forall ph,
      ph ∈ parent_hashes -> ph ∉ oblique_parent_hashes att ->
      is_Some (cache' !! ph).
Proof.
  induction parent_hashes as [|ph0 parent_hashes IH];
    intros cache cache' Hrun ph Hin Hobl; [inversion Hin|].
  simpl in Hrun. bind_inv Hrun as cache1 Hstep.
  apply elem_of_cons in Hin as [->|Hin]; [|eapply IH; eassumption].
  assert (Hgrow : cache_grows cache1 cache').
  { apply (foldM_invariant (cache_grows cache1)) in Hrun;
      [exact Hrun | | apply cache_grows_refl].
    intros c h c' _ Hc Hs. eapply cache_grows_trans; [exact Hc|].
    eapply add_votes_for_grows. exact Hs. }
  unfold add_votes_for in Hstep.
  rewrite bool_decide_eq_false_2 in Hstep by exact Hobl.
  apply add_votes_grows in Hstep.
  assert (Hens : is_Some (match cache !! ph0 with
                          | Some _ => cache
                          | None => <[ph0 := empty_vote_entry]> cache
                          end !! ph0)).
  { destruct (cache !! ph0) eqn:Hph; [rewrite Hph; eauto|].
    rewrite lookup_insert_eq. eauto. }
  destruct Hens as [e He].
  destruct (Hstep ph0 e He) as (e1 & He1 & _).
  destruct (Hgrow ph0 e1 He1) as (e' & He' & _). eauto.
Qed.

Section VoteCache.

Context `{Externals}.
Variable config : Config.

Lemma get_updated_block_vote_cache_Ok cs act att block cache cache' :
  get_updated_block_vote_cache config cs act att block cache = Ok cache' ->
  exists parent_hashes members,
    get_signed_parent_hashes config act block att = Ok parent_hashes /\
    get_attestation_indices config cs att = Ok members /\
    foldM (add_votes_for cs att members) cache parent_hashes = Ok cache'.
Proof.
  unfold get_updated_block_vote_cache. intros Hrun.
  bind_inv Hrun as parent_hashes Hph. bind_inv Hrun as members Hmem.
  exists parent_hashes, members. auto.
Qed.

(** X6: folding an attestation into the vote cache only adds: every entry
    stays, with at least the voters it had; the entries of the
    attestation's oblique parent hashes and of the hashes it does not
    sign are untouched; and if every entry's total was the sum of the
    balances of its voters, it still is (a voter is counted once, with
    its balance in the crystallized state). *)
Theorem get_updated_block_vote_cache_grows cs act att block cache cache' :
  get_updated_block_vote_cache config cs act att block cache = Ok cache' ->
  cache_grows cache cache' /\
  (forall h, h ∈ oblique_parent_hashes att -> cache' !! h = cache !! h) /\
  (forall parent_hashes h,
      get_signed_parent_hashes config act block att = Ok parent_hashes ->
      h ∉ parent_hashes -> cache' !! h = cache !! h) /\
  (cache_consistent cs cache -> cache_consistent cs cache').
Proof.
  intros Hrun.
  apply get_updated_block_vote_cache_Ok in Hrun
    as (parent_hashes & members & Hph & _ & Hrun).
  split; [|split; [|split]].
  - apply (foldM_invariant (cache_grows cache)) in Hrun;
      [exact Hrun | | apply cache_grows_refl].
    intros c ph c' _ Hc Hstep. eapply cache_grows_trans; [exact Hc|].
    eapply add_votes_for_grows. exact Hstep.
  - intros h Hobl.
    apply (foldM_invariant (fun c => c !! h = cache !! h)) in Hrun;
      [exact Hrun | | reflexivity].
    intros c ph c' _ Hc Hstep. rewrite <- Hc.
    eapply add_votes_for_frame; [exact Hstep | right; exact Hobl].
  - intros parent_hashes' h Hph' Hnot.
    assert (parent_hashes' = parent_hashes) as -> by congruence.
    apply (foldM_invariant (fun c => c !! h = cache !! h)) in Hrun;
      [exact Hrun | | reflexivity].
    intros c ph c' Hin Hc Hstep. rewrite <- Hc.
    eapply add_votes_for_frame; [exact Hstep | left].
    intros ->. contradiction.
  - intros Hcons.
    apply (foldM_invariant (cache_consistent cs)) in Hrun;
      [exact Hrun | | exact Hcons].
    intros c ph c' _ Hc Hstep. eapply add_votes_for_consistent; eassumption.
Qed.

(** X7: folding the same attestation into the vote cache a second time
    changes nothing: every member whose bit is set is already a voter of
    every hash it signs, and no deposit is added twice. *)
Theorem get_updated_block_vote_cache_idempotent
    cs act att block cache cache' :
  get_updated_block_vote_cache config cs act att block cache = Ok cache' ->
  get_updated_block_vote_cache config cs act att block cache' = Ok cache'.
Proof.
  intros Hrun.
  apply get_updated_block_vote_cache_Ok in Hrun
    as (parent_hashes & members & Hph & Hmem & Hrun).
  unfold get_updated_block_vote_cache. rewrite Hph, Hmem. simpl.
  apply add_votes_for_nothing_new.
  - intros ph Hin Hobl ci vi Hci.
    eapply add_votes_for_all_voted; eassumption.
  - intros ph Hin Hobl. eapply add_votes_for_entry; eassumption.
Qed.

End VoteCache.

(** ** The reward engine at its edges *)

Lemma add_at_Ok r i x r' :
  add_at r i x = Ok r' ->
  length r' = length r /\ forall j, j <> i -> r' !! j = r !! j.
Proof.
  unfold add_at. intros Hrun. bind_inv Hrun as y Hy. injection Hrun as <-.
  split; [apply length_insert|].
  intros j Hne. apply list_lookup_insert_ne. congruence.
Qed.

(** A loop whose body ends in [r[i] += x] keeps the length of [r] and
    every entry that is not at one of its indices. *)
Lemma foldM_add_at_frame (f : list Z -> nat -> result (list Z)) idxs :
  (forall r i r', f r i = Ok r' -> exists x, add_at r i x = Ok r') ->
  forall r r',
    foldM f r idxs = Ok r' ->
    length r' = length r /\ forall j, j ∉ idxs -> r' !! j = r !! j.
Proof.
  intros Hstep. induction idxs as [|i idxs IH]; intros r r' Hrun;
    simpl in Hrun.
  - injection Hrun as <-. auto.
  - bind_inv Hrun as r1 Hone. apply Hstep in Hone as [x Hone].
    apply add_at_Ok in Hone as [Hlen Hother].
    apply IH in Hrun as [Hlen' Hother'].
    split; [congruence|].
    intros j Hj. apply not_elem_of_cons in Hj as [Hne Hj].
    rewrite Hother' by exact Hj. apply Hother. exact Hne.
Qed.

Lemma zrange_nil (a b : Z) : b <= a -> zrange a b = [].
Proof.
  intros Hle. unfold zrange.
  replace (Z.to_nat (b - a)) with 0%nat by lia. reflexivity.
Qed.

Lemma set_balance_same v : set_balance v (balance v) = v.
Proof. destruct v. reflexivity. Qed.

Section RewardEdges.

Context `{Externals}.
Variable config : Config.

Lemma get_reward_context_Ok total rq qpq :
  get_reward_context config total = Ok (rq, qpq) ->
  total > 0 /\
  slot_duration config <> 0 /\
  rq = base_reward_quotient config * int_sqrt (total / WEI_PER_ETH) /\
  exists ratio square,
    int_true_divide (sqrt_e_drop_time config) (slot_duration config)
      = Ok ratio /\
    float_pow ratio 2 = Ok square /\
    float_is_integer square = true /\
    int_of_float square = Ok qpq.
Proof.
  unfold get_reward_context. intros Hrun.
  bind_inv Hrun as [] Hpos. apply py_assert_Ok in Hpos.
  bind_inv Hrun as ratio Hratio.
  bind_inv Hrun as square Hsquare.
  bind_inv Hrun as [] Hint. apply py_assert_Ok in Hint.
  bind_inv Hrun as q Hq. injection Hrun as <- <-.
  split; [lia|]. split.
  - intros Hzero. rewrite Hzero in Hratio. discriminate.
  - split; [reflexivity|]. exists ratio, square. auto.
Qed.

Lemma int_sqrt_zero (x : Z) : int_sqrt x = 0 <-> x <= 0.
Proof.
  unfold int_sqrt. split.
  - intros Hzero. destruct (Z.le_gt_cases x 0) as [|Hpos]; [assumption|].
    pose proof (Z.sqrt_pos x) as Hsqrt. lia.
  - intros Hle. destruct (Z.eq_dec x 0) as [->|Hne]; [reflexivity|].
    apply Z.sqrt_neg. lia.
Qed.

(** X8: the edges of [get_reward_context].  Total deposits that are not
    positive raise [AssertionError], and positive ones with
    [slot_duration = 0] raise [ZeroDivisionError].  When it returns, the
    reward quotient is 0 exactly when [base_reward_quotient] is 0 or the
    total deposits are below one ETH. *)
Theorem get_reward_context_edges total :
  (total <= 0 -> get_reward_context config total = Err AssertionError) /\
  (total > 0 -> slot_duration config = 0 ->
   get_reward_context config total = Err ZeroDivisionError) /\
  (forall rq qpq,
      get_reward_context config total = Ok (rq, qpq) ->
      total > 0 /\ slot_duration config <> 0 /\
      (rq = 0 <-> base_reward_quotient config = 0 \/ total < WEI_PER_ETH)).
Proof.
  split; [|split].
  - intros Hle. unfold get_reward_context.
    replace (total >? 0) with false by lia. reflexivity.
  - intros Hpos Hzero. unfold get_reward_context.
    replace (total >? 0) with true by lia. rewrite Hzero. reflexivity.
  - intros rq qpq Hrun.
    apply get_reward_context_Ok in Hrun as (Hpos & Hdur & -> & _).
    split; [exact Hpos|]. split; [exact Hdur|].
    assert (Hwei : 0 < WEI_PER_ETH) by reflexivity.
    rewrite Z.mul_eq_0, int_sqrt_zero.
    split; (intros [Hb|Hs]; [left; exact Hb | right]).
    + destruct (Z.lt_ge_cases total WEI_PER_ETH) as [Hlt|Hge];
        [exact Hlt|].
      pose proof (Z.div_le_lower_bound total WEI_PER_ETH 1 Hwei) as Hdiv.
      lia.
    + rewrite Z.div_small by lia. lia.
Qed.

Lemma ffg_rewards_step_frame cs act tsf rq qpq r s r' :
  ffg_rewards_step config cs act tsf rq qpq r s = Ok r' ->
  length r' = length r /\
  forall j,
    j ∉ get_active_validator_indices (current_dynasty cs) (validators cs) ->
    r' !! j = r !! j.
Proof.
  unfold ffg_rewards_step. intros Hrun.
  bind_inv Hrun as [tpd voters] Hpart.
  set (active := get_active_validator_indices _ _) in *.
  assert (Hsub : forall (P : nat -> Prop) `{!forall i, Decision (P i)} j,
             j ∉ active -> j ∉ filter P active).
  { intros P HP j Hj Hin. apply list_elem_of_filter in Hin as [_ Hin].
    contradiction. }
  destruct (tsf <=? 3 * cycle_length config).
  - bind_inv Hrun as r1 Hfirst.
    apply foldM_add_at_frame in Hfirst as [Hlen1 Hkeep1].
    2:{ intros r0 i r0' Hone. bind_inv Hone as v Hv. bind_inv Hone as q Hq.
        bind_inv Hone as d Hd. eauto. }
    apply foldM_add_at_frame in Hrun as [Hlen2 Hkeep2].
    2:{ intros r0 i r0' Hone. bind_inv Hone as v Hv. bind_inv Hone as q Hq.
        eauto. }
    split; [congruence|]. intros j Hj.
    rewrite Hkeep2, Hkeep1 by (apply Hsub; exact Hj). reflexivity.
  - apply foldM_add_at_frame in Hrun as [Hlen Hkeep].
    2:{ intros r0 i r0' Hone. bind_inv Hone as v Hv. bind_inv Hone as q Hq.
        bind_inv Hone as p Hp. eauto. }
    split; [exact Hlen|]. intros j Hj. apply Hkeep, Hsub, Hj.
Qed.

(** X9: when [calculate_ffg_rewards] returns, its list has one entry per
    validator and the entry of every validator that is not active in the
    current dynasty is 0. *)
Theorem calculate_ffg_rewards_shape cs act block rewards :
  calculate_ffg_rewards config cs act block = Ok rewards ->
  length rewards = length (validators cs) /\
  forall i v,
    validators cs !! i = Some v ->
    is_active (current_dynasty cs) v = false ->
    rewards !! i = Some 0.
Proof.
  unfold calculate_ffg_rewards. intros Hrun.
  bind_inv Hrun as [rq qpq] Hctx.
  apply (foldM_invariant
           (fun r : list Z =>
              length r = length (validators cs) /\
              forall j,
                j ∉ get_active_validator_indices (current_dynasty cs)
                                                 (validators cs) ->
                r !! j = replicate (length (validators cs)) 0 !! j))
    in Hrun.
  - destruct Hrun as [Hlen Hzero]. split; [exact Hlen|].
    intros i v Hv Hidle. rewrite Hzero.
    + apply lookup_replicate_2. apply lookup_lt_Some in Hv. exact Hv.
    + intros (v' & Hv' & Hact)%elem_of_active_indices. congruence.
  - intros r s r' _ [Hlen Hzero] Hstep.
    apply ffg_rewards_step_frame in Hstep as [Hlen' Hkeep].
    split; [congruence|]. intros j Hj. rewrite Hkeep by exact Hj.
    apply Hzero, Hj.
  - split; [apply length_replicate | reflexivity].
Qed.

Lemma shard_rewards_frame cs block rq qpq r item r' :
  shard_rewards cs block rq qpq r item = Ok r' ->
  length r' = length r /\
  ((forall record, record ∈ crosslink_records cs ->
                   dynasty record = current_dynasty cs) ->
   r' = r).
Proof.
  destruct item as [shard cc]. unfold shard_rewards. intros Hrun.
  bind_inv Hrun as crosslink Hcross. apply getitem_Ok in Hcross.
  destruct (Z.eqb_spec (dynasty crosslink) (current_dynasty cs)) as [Heq|Hne].
  - injection Hrun as <-. auto.
  - split.
    + bind_inv Hrun as r1 Hfirst.
      apply foldM_add_at_frame in Hfirst as [Hlen1 _].
      2:{ intros r0 i r0' Hone. bind_inv Hone as v Hv. bind_inv Hone as q Hq.
          bind_inv Hone as d Hd. eauto. }
      apply foldM_add_at_frame in Hrun as [Hlen2 _].
      2:{ intros r0 i r0' Hone. bind_inv Hone as v Hv. bind_inv Hone as q Hq.
          bind_inv Hone as p Hp. eauto. }
      congruence.
    + intros Hall. exfalso. apply Hne, Hall.
      apply list_elem_of_lookup. eauto.
Qed.

(** X10: when [calculate_crosslink_rewards] returns, its list has one
    entry per validator; and if every crosslink record is already of the
    current dynasty, every shard is skipped and all entries are 0. *)
Theorem calculate_crosslink_rewards_shape cs act block rewards :
  calculate_crosslink_rewards config cs act block = Ok rewards ->
  length rewards = length (validators cs) /\
  ((forall record, record ∈ crosslink_records cs ->
                   dynasty record = current_dynasty cs) ->
   rewards = replicate (length (validators cs)) 0).
Proof.
  unfold calculate_crosslink_rewards. intros Hrun.
  bind_inv Hrun as [rq qpq] Hctx. bind_inv Hrun as ccs Hccs.
  split.
  - apply (foldM_invariant
             (fun r : list Z => length r = length (validators cs))) in Hrun;
      [exact Hrun | | apply length_replicate].
    intros r item r' _ Hlen Hstep.
    apply shard_rewards_frame in Hstep as [Hlen' _]. congruence.
  - intros Hall.
    apply (foldM_invariant
             (fun r : list Z => r = replicate (length (validators cs)) 0))
      in Hrun; [exact Hrun | | reflexivity].
    intros r item r' _ -> Hstep.
    apply shard_rewards_frame in Hstep as [_ Hsame]. apply Hsame, Hall.
Qed.

(** Before the first recalculation the window of both reward loops is
    empty. *)
Lemma rewards_empty_window cs act block :
  last_state_recalc cs <= 0 ->
  is_ok (get_reward_context config (total_deposits cs)) = true ->
  calculate_ffg_rewards config cs act block
    = Ok (replicate (length (validators cs)) 0) /\
  calculate_crosslink_rewards config cs act block
    = Ok (replicate (length (validators cs)) 0).
Proof.
  intros Hrecalc Hctx.
  unfold calculate_ffg_rewards, calculate_crosslink_rewards.
  destruct (get_reward_context config (total_deposits cs)) as [[rq qpq]|e];
    [|discriminate].
  simpl. rewrite zrange_nil by lia. split; reflexivity.
Qed.

Lemma apply_reward_zero vs i v n :
  vs !! i = Some v -> 0 <= balance v -> (i < n)%nat ->
  apply_reward (replicate n 0) (replicate n 0) vs i = Ok vs.
Proof.
  intros Hv Hpos Hi. unfold apply_reward, getitem.
  rewrite Hv, (lookup_replicate_2 n 0 i Hi). simpl.
  replace (balance v + (0 + 0) <? 0) with false by lia.
  replace (balance v + (0 + 0)) with (balance v) by lia.
  rewrite set_balance_same, list_insert_id by exact Hv. reflexivity.
Qed.

(** X11: while [last_state_recalc <= 0] (the cycle that starts at
    genesis) no slot is rewarded or penalised: if the reward context can
    be computed and no active validator has a negative balance,
    [apply_rewards_and_penalties] returns the validators as they are. *)
Theorem apply_rewards_and_penalties_first_cycle cs act block :
  last_state_recalc cs <= 0 ->
  is_ok (get_reward_context config (total_deposits cs)) = true ->
  (forall v, v ∈ validators cs ->
             is_active (current_dynasty cs) v = true -> 0 <= balance v) ->
  apply_rewards_and_penalties config cs act block = Ok (validators cs).
Proof.
  intros Hrecalc Hctx Hpos. unfold apply_rewards_and_penalties.
  destruct (rewards_empty_window cs act block Hrecalc Hctx) as [-> ->].
  simpl.
  assert (Hloop : forall idxs,
             (forall i, i ∈ idxs ->
                        i ∈ get_active_validator_indices
                              (current_dynasty cs) (validators cs)) ->
             foldM (apply_reward (replicate (length (validators cs)) 0)
                                 (replicate (length (validators cs)) 0))
                   (validators cs) idxs = Ok (validators cs)).
  { induction idxs as [|i idxs IH]; intros Hin; [reflexivity|]. simpl.
    destruct (proj1 (elem_of_active_indices _ _ _) (Hin i ltac:(left)))
      as (v & Hv & Hact).
    rewrite (apply_reward_zero _ i v).
    - simpl. apply IH. intros j Hj. apply Hin. right. exact Hj.
    - exact Hv.
    - apply Hpos; [|exact Hact]. apply list_elem_of_lookup. eauto.
    - apply lookup_lt_Some in Hv. exact Hv. }
  apply Hloop. auto.
Qed.

(** The deposits are positive only with an active validator. *)
Lemma total_deposits_pos_active cs :
  total_deposits cs > 0 ->
  get_active_validator_indices (current_dynasty cs) (validators cs) <> [].
Proof.
  unfold total_deposits, get_active_validator_indices, enumerate.
  intros Hpos Hnil.
  assert (Hnone : filter (is_active (current_dynasty cs)) (validators cs) = []).
  { destruct (filter (is_active (current_dynasty cs)) (validators cs))
      as [|v vs] eqn:Hf; [reflexivity|]. exfalso.
    assert (Hv : v ∈ filter (is_active (current_dynasty cs)) (validators cs))
      by (rewrite Hf; left).
    apply list_elem_of_filter in Hv as [Hact Hv].
    apply list_elem_of_lookup in Hv as [i Hi].
    assert (Hin : i ∈ get_active_validator_indices (current_dynasty cs)
                        (validators cs)).
    { apply elem_of_active_indices. exists v. split; [exact Hi|].
      apply Is_true_true. exact Hact. }
    unfold get_active_validator_indices, enumerate in Hin.
    rewrite Hnil in Hin. inversion Hin. }
  rewrite Hnone in Hpos. simpl in Hpos. unfold zsum in Hpos. simpl in Hpos. lia.
Qed.

(** X12: deposits under one ETH stop the FFG rewards.  When
    [get_reward_context] returns for total deposits below [WEI_PER_ETH]
    the reward quotient is 0, and, once finality is recent
    ([time_since_finality <= 3 * cycle_length]), the window has a slot
    and the participation of its first slot can be read,
    [calculate_ffg_rewards] raises [ZeroDivisionError]. *)
Theorem calculate_ffg_rewards_small_deposits cs act block :
  total_deposits cs < WEI_PER_ETH ->
  is_ok (get_reward_context config (total_deposits cs)) = true ->
  slot_number block - last_finalized_slot cs <= 3 * cycle_length config ->
  Z.max (last_state_recalc cs - cycle_length config) 0 < last_state_recalc cs ->
  is_ok (slot_participation
           act (Z.max (last_state_recalc cs - cycle_length config) 0)) = true ->
  calculate_ffg_rewards config cs act block = Err ZeroDivisionError.
Proof.
  intros Hsmall Hctx Hrecent Hwindow Hpart. unfold calculate_ffg_rewards.
  destruct (get_reward_context config (total_deposits cs))
    as [[rq qpq]|e] eqn:Hrc; [|discriminate].
  pose proof (get_reward_context_Ok _ _ _ Hrc) as (Hpos & _ & Hrq & _).
  assert (rq = 0) as ->.
  { rewrite Hrq, Z.div_small by lia. unfold int_sqrt.
    change (Z.sqrt 0) with 0. lia. }
  simpl. rewrite (zrange_cons _ _ Hwindow). simpl.
  unfold ffg_rewards_step at 1.
  destruct (slot_participation act _) as [[tpd voters]|e]; [|discriminate].
  simpl. replace (_ <=? _) with true by lia.
  pose proof (total_deposits_pos_active cs Hpos) as Hactive.
  set (active := get_active_validator_indices _ _) in *.
  assert (Hdiv : forall (f : list Z -> nat -> Z -> result (list Z)) idxs r,
             idxs <> [] -> (forall i, i ∈ idxs -> i ∈ active) ->
             foldM (fun r index =>
                      let* v := getitem (validators cs) index in
                      let* q := floordiv (balance v) 0 in
                      f r index q) r idxs = Err ZeroDivisionError).
  { intros f [|i idxs] r Hne Hin; [contradiction|]. simpl.
    destruct (proj1 (elem_of_active_indices _ _ _) (Hin i ltac:(left)))
      as (v & Hv & _).
    unfold getitem. rewrite Hv. reflexivity. }
  destruct (filter (fun index => index ∈ voters) active) as [|i part] eqn:Hp.
  - simpl.
    assert (Hall : filter (fun index => index ∉ voters) active = active).
    { clear -Hp. induction active as [|j active IH]; [reflexivity|].
      rewrite filter_cons in Hp. rewrite filter_cons.
      destruct (decide (j ∈ voters)) as [Hj|Hj]; [discriminate|].
      destruct (decide (j ∉ voters)); [|contradiction].
      f_equal. apply IH, Hp. }
    rewrite Hall.
    rewrite (Hdiv (fun r index q => add_at r index (- q))); auto.
  - rewrite (Hdiv (fun r index q =>
                     let* d := floordiv (q * (2 * tpd - total_deposits cs))
                                        (total_deposits cs) in
                     add_at r index d)).
    + reflexivity.
    + discriminate.
    + intros j Hj. rewrite <- Hp in Hj.
      apply list_elem_of_filter in Hj as [_ Hj]. exact Hj.
Qed.

End RewardEdges.

(** ** Cycles and dynasties *)

Section CycleEdges.

Context `{Externals}.
Variable config : Config.

(** X13: what a cycle needs.  [initialize_new_cycle] returns only if
    [recent_block_hashes] has at least [cycle_length] entries, the total
    deposits are positive and [slot_duration] is not 0; so a transition
    across a cycle boundary returns only from such a parent state. *)
Theorem initialize_new_cycle_needs cs act block cs' act' :
  initialize_new_cycle config cs act block = Ok (cs', act') ->
  cycle_length config <= Z.of_nat (length (recent_block_hashes act)) /\
  total_deposits cs > 0 /\
  slot_duration config <> 0.
Proof.
  intros Hrun.
  apply initialize_new_cycle_Ok in Hrun
    as (lj & js & lf & crs & vs & Hloop & _ & Hvs & _ & _).
  split.
  - destruct (Z.to_nat (cycle_length config)) as [|n] eqn:Hn; [lia|].
    unfold justification_loop in Hloop.
    destruct (foldM_Ok_each _ _ _ _ Hloop n) as ([[lj1 js1] lf1] & st2 & Hstep).
    { apply elem_of_seq. lia. }
    unfold justification_step in Hstep. bind_inv Hstep as h Hh.
    apply getitem_Ok, lookup_lt_Some in Hh. lia.
  - unfold apply_rewards_and_penalties in Hvs. bind_inv Hvs as ffg Hffg.
    unfold calculate_ffg_rewards in Hffg. bind_inv Hffg as [rq qpq] Hctx.
    apply get_reward_context_Ok in Hctx as (Hpos & Hdur & _).
    auto.
Qed.

(** *** Readiness for a dynasty transition *)

(** X14: [ready_for_dynasty_transition] is true exactly when the dynasty
    has lasted [min_dynasty_length] slots, a slot after its start is
    finalized, and every crosslink record whose shard is scheduled has a
    slot after its start.  A scheduled shard without a record is not
    looked at. *)
Theorem ready_for_dynasty_transition_spec cs block :
  ready_for_dynasty_transition config cs block = true <->
  slot_number block - dynasty_start cs >= min_dynasty_length config /\
  last_finalized_slot cs > dynasty_start cs /\
  forall shard record sc,
    crosslink_records cs !! shard = Some record ->
    sc ∈ concat (shard_and_committee_for_slots cs) ->
    sc_shard_id sc = shard ->
    crosslink_slot record > dynasty_start cs.
Proof.
  unfold ready_for_dynasty_transition.
  destruct (Z.ltb_spec (slot_number block - dynasty_start cs)
                       (min_dynasty_length config)) as [Hshort|Hlong];
    [split; [discriminate | lia]|].
  destruct (Z.leb_spec (last_finalized_slot cs) (dynasty_start cs))
    as [Hnofin|Hfin]; [split; [discriminate | lia]|].
  rewrite forallb_forall. split.
  - intros Hall. split; [lia|]. split; [lia|].
    intros shard record sc Hrec Hsc Hshard.
    specialize (Hall (shard, record)).
    rewrite <- list_elem_of_In, elem_of_enumerate in Hall.
    specialize (Hall Hrec). simpl in Hall.
    rewrite bool_decide_eq_true_2 in Hall.
    + simpl in Hall. destruct (Z.leb_spec (crosslink_slot record)
                                           (dynasty_start cs));
        [discriminate | lia].
    + apply elem_of_list_to_set, list_elem_of_fmap. eauto.
  - intros (_ & _ & Hall) [shard record] Hin.
    rewrite <- list_elem_of_In, elem_of_enumerate in Hin.
    destruct (bool_decide_reflect
                (shard ∈ (list_to_set
                            (sc_shard_id <$>
                               concat (shard_and_committee_for_slots cs))
                          : gset nat))) as [Hreq|Hnot]; [|reflexivity].
    apply elem_of_list_to_set, list_elem_of_fmap in Hreq
      as (sc & Hshard & Hsc).
    specialize (Hall shard record sc Hin Hsc (eq_sym Hshard)).
    simpl. destruct (Z.leb_spec (crosslink_slot record) (dynasty_start cs));
      [lia | reflexivity].
Qed.

(** X15: no two dynasty transitions on the same finality.  The state
    [compute_dynasty_transition] returns starts its dynasty at
    [last_state_recalc]; with [last_finalized_slot <= last_state_recalc]
    it is not ready for another transition, whatever the block. *)
Theorem dynasty_transition_not_ready_again cs block cs' block' :
  last_finalized_slot cs <= last_state_recalc cs ->
  compute_dynasty_transition config cs block = Ok cs' ->
  current_dynasty cs' = current_dynasty cs + 1 /\
  dynasty_start cs' = last_state_recalc cs /\
  ready_for_dynasty_transition config cs' block' = false.
Proof.
  intros Hfin Hrun.
  apply compute_dynasty_transition_Ok in Hrun as (sh & -> & _).
  split; [reflexivity|]. split; [reflexivity|].
  unfold ready_for_dynasty_transition. simpl.
  destruct (_ <? _); [reflexivity|].
  replace (last_finalized_slot cs <=? last_state_recalc cs) with true by lia.
  reflexivity.
Qed.

(** X16: the committees of the cycle that opens are those that were
    scheduled for it.  After a pass through the body of the loop, with or
    without a dynasty transition, entry [i] of the schedule, for
    [i < cycle_length], is entry [cycle_length + i] of the schedule
    before. *)
Theorem cycle_iteration_keeps_committees cs act block cs' act' :
  schedule_ok config cs ->
  cycle_iteration config cs act block = Ok (cs', act') ->
  forall i : nat,
    Z.of_nat i < cycle_length config ->
    shard_and_committee_for_slots cs' !! i =
    shard_and_committee_for_slots cs !! (Z.to_nat (cycle_length config) + i)%nat.
Proof.
  unfold schedule_ok. intros Hlen Hit i Hi.
  apply cycle_iteration_Ok in Hit as (cs1 & Hinit & Hdyn).
  apply initialize_new_cycle_Ok in Hinit
    as (lj & js & lf & crs & vs & _ & _ & _ & -> & _).
  assert (Hslice : slice_from (shard_and_committee_for_slots cs)
                              (cycle_length config)
                   = drop (Z.to_nat (cycle_length config))
                          (shard_and_committee_for_slots cs)).
  { unfold slice_from. destruct (Z.ltb_spec (cycle_length config) 0);
      [lia | reflexivity]. }
  assert (Hfirst :
            (slice_from (shard_and_committee_for_slots cs) (cycle_length config)
             ++ slice_from (shard_and_committee_for_slots cs)
                           (cycle_length config)) !! i
            = shard_and_committee_for_slots cs
                !! (Z.to_nat (cycle_length config) + i)%nat).
  { rewrite Hslice, lookup_app_l by (rewrite length_drop; lia).
    apply lookup_drop. }
  destruct Hdyn as [->|Hdyn]; [exact Hfirst|].
  apply compute_dynasty_transition_Ok in Hdyn as (sh & -> & _).
  simpl. unfold slice_to.
  destruct (Z.ltb_spec (cycle_length config) 0); [lia|].
  rewrite lookup_app_l.
  - rewrite lookup_take_lt by lia. exact Hfirst.
  - rewrite length_take, length_app, Hslice, length_drop. lia.
Qed.

End CycleEdges.

(** ** Dynasty and crosslink bookkeeping *)

Section Bookkeeping.

Context `{Externals}.
Variable config : Config.

Lemma cycle_iteration_dynasty cs act block cs' act' :
  cycle_iteration config cs act block = Ok (cs', act') ->
  (current_dynasty cs' = current_dynasty cs /\
   dynasty_start cs' = dynasty_start cs) \/
  (current_dynasty cs' = current_dynasty cs + 1 /\
   dynasty_start cs' = last_state_recalc cs + cycle_length config).
Proof.
  intros Hit. apply cycle_iteration_Ok in Hit as (cs1 & Hinit & Hdyn).
  apply initialize_new_cycle_Ok in Hinit
    as (lj & js & lf & crs & vs & _ & _ & _ & -> & _).
  destruct Hdyn as [->|Hdyn]; [left; split; reflexivity|].
  apply compute_dynasty_transition_Ok in Hdyn as (sh & -> & _).
  right. split; reflexivity.
Qed.

Lemma compute_cycle_transitions_dynasty fuel :
  0 <= cycle_length config ->
  forall cs act block cs' act',
    compute_cycle_transitions config fuel cs act block = Some (Ok (cs', act')) ->
    current_dynasty cs <= current_dynasty cs' /\
    (current_dynasty cs' = current_dynasty cs ->
     dynasty_start cs' = dynasty_start cs) /\
    (current_dynasty cs < current_dynasty cs' ->
     last_state_recalc cs + cycle_length config <= dynasty_start cs'
       <= last_state_recalc cs').
Proof.
  intros Hcl.
  induction fuel as [|fuel IH]; intros cs act block cs' act'; simpl;
    destruct (slot_number block >=?
              last_state_recalc cs + cycle_length config);
    try discriminate;
    try (intros [= <- <-]; split; [lia|]; split; [reflexivity | lia]).
  destruct (cycle_iteration config cs act block) as [[cs1 act1]|e] eqn:Hit;
    [|discriminate].
  intros Hrun.
  pose proof (cycle_iteration_recalc _ _ _ _ _ _ Hit) as Hrecalc.
  pose proof (compute_cycle_transitions_stops _ _ _ _ _ _ _ Hrun)
    as (k & Hk & _ & _).
  apply IH in Hrun as (Hle & Hsame & Hnew).
  apply cycle_iteration_dynasty in Hit.
  assert (Hk' : 0 <= Z.of_nat k * cycle_length config) by nia.
  destruct Hit as [[Hcd Hds]|[Hcd Hds]].
  - split; [lia|]. split.
    + intros Heq. rewrite Hsame by lia. exact Hds.
    + intros Hlt. specialize (Hnew ltac:(lia)). lia.
  - split; [lia|]. split; [lia|]. intros _.
    destruct (Z.eq_dec (current_dynasty cs') (current_dynasty cs1)) as [Heq|Hne].
    + rewrite (Hsame Heq). lia.
    + specialize (Hnew ltac:(lia)). lia.
Qed.

(** X17: the dynasty over a transition that returns ([cycle_length >= 0]):
    [dynasty_seed] is never changed, [current_dynasty] never decreases,
    [dynasty_start] is the parent's if the dynasty is, and otherwise a
    recalc point after the parent's [last_state_recalc] and not after the
    new one. *)
Theorem transition_dynasty fuel cs act parent_block block cs' act' :
  0 <= cycle_length config ->
  compute_state_transition config fuel (cs, act) parent_block block
    = Some (Ok (cs', act')) ->
  dynasty_seed cs' = dynasty_seed cs /\
  current_dynasty cs <= current_dynasty cs' /\
  (current_dynasty cs' = current_dynasty cs ->
   dynasty_start cs' = dynasty_start cs) /\
  (current_dynasty cs < current_dynasty cs' ->
   last_state_recalc cs + cycle_length config <= dynasty_start cs'
     <= last_state_recalc cs').
Proof.
  intros Hcl. unfold compute_state_transition.
  destruct (process_block _ _ _ _ _) as [act1|e]; [|discriminate].
  intros Hrun.
  pose proof (compute_cycle_transitions_frame _ _ Hcl _ _ _ _ _ Hrun)
    as (_ & _ & _ & _ & Hseed & _).
  split; [exact Hseed|].
  eapply compute_cycle_transitions_dynasty; eassumption.
Qed.

(** X18: a crosslink record changes only by promotion.  When
    [process_updated_crosslinks] returns, the record of every shard is
    the one of the input state, or the input record was of an earlier
    dynasty and the new one has the current dynasty, the slot
    [last_state_recalc + cycle_length] and the shard block hash of a
    pending attestation of that shard.  So no record's dynasty decreases,
    and none exceeds [current_dynasty] unless it did before. *)
Theorem crosslink_records_change_by_promotion cs act block out :
  process_updated_crosslinks config cs act block = Ok out ->
  (forall s r',
      out !! s = Some r' ->
      crosslink_records cs !! s = Some r' \/
      exists r a,
        crosslink_records cs !! s = Some r /\
        dynasty r < current_dynasty cs /\
        a ∈ pending_attestations act /\ shard_id a = s /\
        r' = {| dynasty := current_dynasty cs;
                crosslink_slot := last_state_recalc cs + cycle_length config;
                crosslink_hash := shard_block_hash a |}) /\
  (forall s r r',
      crosslink_records cs !! s = Some r -> out !! s = Some r' ->
      dynasty r <= dynasty r' /\
      (dynasty r <= current_dynasty cs -> dynasty r' <= current_dynasty cs)).
Proof.
  intros Hrun.
  destruct (process_updated_crosslinks_inv config cs act block out Hrun)
    as (tab & _ & _ & Hcls). simpl in Hcls.
  assert (Hchange : forall s r',
             out !! s = Some r' ->
             crosslink_records cs !! s = Some r' \/
             exists r a,
               crosslink_records cs !! s = Some r /\
               dynasty r < current_dynasty cs /\
               a ∈ pending_attestations act /\ shard_id a = s /\
               r' = new_crosslink config cs a).
  { intros s r' Hout. destruct (Hcls s) as [(_ & Hsame)|(b & Hb & Hnew)].
    - left. congruence.
    - right. destruct Hb as (p1 & p2 & Hsplit & Hshard & Hprom & _).
      destruct Hprom as (_ & r & Hr & Hgt).
      exists r, b. split; [congruence|]. split; [lia|].
      split; [rewrite Hsplit; apply elem_of_app; right; left|].
      split; [exact Hshard | congruence]. }
  split; [exact Hchange|].
  intros s r r' Hr Hout.
  destruct (Hchange s r' Hout) as [Hsame|(r0 & a & Hr0 & Hlt & _ & _ & ->)].
  - assert (r' = r) as -> by congruence. lia.
  - assert (r0 = r) as -> by congruence. simpl. lia.
Qed.

End Bookkeeping.

(** ** The properties above on the small chain *)

Section MoreOnSmallChain.

#[local] Existing Instance Scenario.externals.

Lemma compute_cycle_transitions_catches_up_witness :
  exists cs' act',
    compute_cycle_transitions Scenario.cfg 1 Scenario.cs0 Scenario.as1
                              Scenario.block3 = Some (Ok (cs', act')) /\
    last_state_recalc cs' = 2 /\
    slot_number Scenario.block3 < last_state_recalc cs' + 2.
Proof.
  destruct (compute_cycle_transitions Scenario.cfg 1 Scenario.cs0 Scenario.as1
                                      Scenario.block3)
    as [[[cs' act']|e]|] eqn:Hrun; [|vm_compute in Hrun; discriminate..].
  exists cs', act'. split; [reflexivity|].
  apply (compute_cycle_transitions_catches_up
           Scenario.cfg 1 Scenario.cs0 Scenario.as1 Scenario.block3 cs' act');
    [discriminate | exact Hrun].
Defined.

Lemma finality_order_kept_witness :
  finality_ordered Scenario.cs0 /\
  exists cs' act',
    compute_state_transition Scenario.cfg 1 (Scenario.cs0, Scenario.as0)
                             Scenario.genesis_block Scenario.block3
      = Some (Ok (cs', act')) /\
    finality_ordered cs'.
Proof.
  assert (Hord : finality_ordered Scenario.cs0) by (split; discriminate).
  split; [exact Hord|].
  destruct (compute_state_transition Scenario.cfg 1 (Scenario.cs0, Scenario.as0)
                                     Scenario.genesis_block Scenario.block3)
    as [[[cs' act']|e]|] eqn:Hrun; [|vm_compute in Hrun; discriminate..].
  exists cs', act'. split; [reflexivity|].
  apply (finality_order_kept Scenario.cfg 1 Scenario.cs0 Scenario.as0
           Scenario.genesis_block Scenario.block3 cs' act');
    [discriminate | exact Hord | exact Hrun].
Defined.

Lemma validators_keep_identity_witness :
  exists cs' act',
    compute_state_transition Scenario.cfg 1 (Scenario.cs0, Scenario.as0)
                             Scenario.genesis_block Scenario.block3
      = Some (Ok (cs', act')) /\
    length (validators cs') = 3%nat /\
    forall i v',
      validators cs' !! i = Some v' ->
      exists v, validators Scenario.cs0 !! i = Some v /\ same_identity v v'.
Proof.
  destruct (compute_state_transition Scenario.cfg 1 (Scenario.cs0, Scenario.as0)
                                     Scenario.genesis_block Scenario.block3)
    as [[[cs' act']|e]|] eqn:Hrun; [|vm_compute in Hrun; discriminate..].
  exists cs', act'. split; [reflexivity|].
  apply (validators_keep_identity Scenario.cfg 1 Scenario.cs0 Scenario.as0
           Scenario.genesis_block Scenario.block3 cs' act');
    [discriminate | exact Hrun].
Defined.

Lemma transition_extends_chain_witness :
  exists cs' act',
    compute_state_transition Scenario.cfg 1 (Scenario.cs0, Scenario.as0)
                             Scenario.genesis_block Scenario.block3
      = Some (Ok (cs', act')) /\
    chain act' =
      {| chain_head := Some Scenario.block3;
         blocks := [Scenario.genesis_block; Scenario.block3] |} /\
    recent_block_hashes act' =
      [Scenario.h 0; Scenario.slot_hash Scenario.genesis_block;
       Scenario.slot_hash Scenario.genesis_block;
       Scenario.slot_hash Scenario.genesis_block].
Proof.
  destruct (compute_state_transition Scenario.cfg 1 (Scenario.cs0, Scenario.as0)
                                     Scenario.genesis_block Scenario.block3)
    as [[[cs' act']|e]|] eqn:Hrun; [|vm_compute in Hrun; discriminate..].
  exists cs', act'. split; [reflexivity|].
  apply (transition_extends_chain Scenario.cfg 1 Scenario.cs0 Scenario.as0
           Scenario.genesis_block Scenario.block3 cs' act');
    [discriminate | exact Hrun].
Defined.

Lemma transition_pending_attestations_witness :
  exists cs' act',
    compute_state_transition Scenario.cfg 1 (Scenario.cs0, Scenario.as0)
                             Scenario.genesis_block Scenario.block3
      = Some (Ok (cs', act')) /\
    pending_attestations act' =
      filter (fun a => slot a >= last_state_recalc cs' - 2) [Scenario.att1].
Proof.
  destruct (compute_state_transition Scenario.cfg 1 (Scenario.cs0, Scenario.as0)
                                     Scenario.genesis_block Scenario.block3)
    as [[[cs' act']|e]|] eqn:Hrun; [|vm_compute in Hrun; discriminate..].
  exists cs', act'. split; [reflexivity|].
  apply (transition_pending_attestations Scenario.cfg 1 Scenario.cs0
           Scenario.as0 Scenario.genesis_block Scenario.block3 cs' act');
    [discriminate | exact Hrun | discriminate].
Defined.

Lemma transition_dynasty_witness :
  exists cs' act',
    compute_state_transition Scenario.cfg 1 (Scenario.cs0, Scenario.as0)
                             Scenario.genesis_block Scenario.block3
      = Some (Ok (cs', act')) /\
    dynasty_seed cs' = Scenario.h 0 /\
    1 <= current_dynasty cs'.
Proof.
  destruct (compute_state_transition Scenario.cfg 1 (Scenario.cs0, Scenario.as0)
                                     Scenario.genesis_block Scenario.block3)
    as [[[cs' act']|e]|] eqn:Hrun; [|vm_compute in Hrun; discriminate..].
  exists cs', act'. split; [reflexivity|].
  destruct (transition_dynasty Scenario.cfg 1 Scenario.cs0 Scenario.as0
              Scenario.genesis_block Scenario.block3 cs' act')
    as (Hseed & Hdyn & _); [discriminate | exact Hrun |].
  split; [exact Hseed | exact Hdyn].
Defined.

End MoreOnSmallChain.

Section MoreOnSmallChain2.

#[local] Existing Instance Scenario.externals.

Lemma get_updated_block_vote_cache_grows_witness :
  exists cache',
    get_updated_block_vote_cache Scenario.cfg Scenario.cs0 Scenario.as0
      Scenario.att1 Scenario.block1 ∅ = Ok cache' /\
    cache_grows ∅ cache' /\
    (cache_consistent Scenario.cs0 ∅ -> cache_consistent Scenario.cs0 cache').
Proof.
  assert (Hok : is_ok (get_updated_block_vote_cache Scenario.cfg Scenario.cs0
                         Scenario.as0 Scenario.att1 Scenario.block1 ∅) = true)
    by (vm_compute; reflexivity).
  destruct (get_updated_block_vote_cache Scenario.cfg Scenario.cs0 Scenario.as0
              Scenario.att1 Scenario.block1 ∅)
    as [cache'|e] eqn:Hrun; [|discriminate Hok].
  exists cache'. split; [reflexivity|].
  destruct (get_updated_block_vote_cache_grows Scenario.cfg Scenario.cs0
              Scenario.as0 Scenario.att1 Scenario.block1 ∅ cache' Hrun)
    as (Hgrows & _ & _ & Hcons).
  split; [exact Hgrows | exact Hcons].
Defined.

Lemma get_updated_block_vote_cache_idempotent_witness :
  exists cache',
    get_updated_block_vote_cache Scenario.cfg Scenario.cs0 Scenario.as0
      Scenario.att1 Scenario.block1 ∅ = Ok cache' /\
    get_updated_block_vote_cache Scenario.cfg Scenario.cs0 Scenario.as0
      Scenario.att1 Scenario.block1 cache' = Ok cache'.
Proof.
  assert (Hok : is_ok (get_updated_block_vote_cache Scenario.cfg Scenario.cs0
                         Scenario.as0 Scenario.att1 Scenario.block1 ∅) = true)
    by (vm_compute; reflexivity).
  destruct (get_updated_block_vote_cache Scenario.cfg Scenario.cs0 Scenario.as0
              Scenario.att1 Scenario.block1 ∅)
    as [cache'|e] eqn:Hrun; [|discriminate Hok].
  exists cache'. split; [reflexivity|].
  apply (get_updated_block_vote_cache_idempotent Scenario.cfg Scenario.cs0
           Scenario.as0 Scenario.att1 Scenario.block1 ∅ cache' Hrun).
Defined.

(** The true division on three inputs: a quotient that is a float
    (67108864.5), one that is too large for a float, and one that is
    rounded (1/3). *)
Example int_true_divide_examples :
  int_true_divide 134217729 2
    = Ok (S754_finite false 4503599660924928 (-26)) /\
  int_true_divide (10 ^ 400) 1 = Err OverflowError /\
  int_true_divide 1 3 = Ok (S754_finite false 6004799503160661 (-54)) /\
  int_true_divide 5 0 = Err ZeroDivisionError.
Proof. repeat split; vm_compute; reflexivity. Qed.

Lemma get_reward_context_edges_witness :
  sqrt_e_drop_time Edges.cfg_odd mod slot_duration Edges.cfg_odd <> 0 /\
  exists rq,
    get_reward_context Edges.cfg_odd (total_deposits Scenario.cs0)
      = Ok (rq, 4503599694479360) /\
    total_deposits Scenario.cs0 > 0 /\
    slot_duration Edges.cfg_odd <> 0 /\
    (rq = 0 <-> base_reward_quotient Edges.cfg_odd = 0 \/
                total_deposits Scenario.cs0 < WEI_PER_ETH).
Proof.
  split; [discriminate|].
  assert (Hrun : get_reward_context Edges.cfg_odd (total_deposits Scenario.cs0)
                 = Ok (294912, 4503599694479360)) by (vm_compute; reflexivity).
  exists 294912. split; [exact Hrun|].
  apply (proj2 (proj2 (get_reward_context_edges
                         Edges.cfg_odd (total_deposits Scenario.cs0)))
           294912 4503599694479360 Hrun).
Defined.

Lemma calculate_ffg_rewards_shape_witness :
  exists rewards,
    calculate_ffg_rewards Scenario.cfg Scenario.cs2 Scenario.as2
                          Scenario.block5 = Ok rewards /\
    length rewards = 4%nat /\
    rewards !! 3%nat = Some 0.
Proof.
  destruct (calculate_ffg_rewards Scenario.cfg Scenario.cs2 Scenario.as2
                                  Scenario.block5)
    as [rewards|e] eqn:Hrun; [|vm_compute in Hrun; discriminate].
  exists rewards. split; [reflexivity|].
  destruct (calculate_ffg_rewards_shape Scenario.cfg Scenario.cs2 Scenario.as2
              Scenario.block5 rewards Hrun) as (Hlen & Hidle).
  split; [exact Hlen|].
  apply (Hidle 3%nat (Scenario.idle_validator 5)); reflexivity.
Defined.

Lemma calculate_crosslink_rewards_shape_witness :
  exists rewards,
    calculate_crosslink_rewards Scenario.cfg Scenario.cs2 Scenario.as2
                                Scenario.block5 = Ok rewards /\
    length rewards = 4%nat.
Proof.
  destruct (calculate_crosslink_rewards Scenario.cfg Scenario.cs2 Scenario.as2
                                        Scenario.block5)
    as [rewards|e] eqn:Hrun; [|vm_compute in Hrun; discriminate].
  exists rewards. split; [reflexivity|].
  apply (calculate_crosslink_rewards_shape Scenario.cfg Scenario.cs2
           Scenario.as2 Scenario.block5 rewards Hrun).
Defined.

Lemma apply_rewards_and_penalties_first_cycle_witness :
  apply_rewards_and_penalties Scenario.cfg Scenario.cs0 Scenario.as1
                              Scenario.block3
  = Ok (validators Scenario.cs0).
Proof.
  apply (apply_rewards_and_penalties_first_cycle Scenario.cfg Scenario.cs0
           Scenario.as1 Scenario.block3).
  - discriminate.
  - reflexivity.
  - intros v Hv _.
    change (validators Scenario.cs0)
      with [Scenario.validator 1; Scenario.validator 2; Scenario.validator 3]
      in Hv.
    apply elem_of_cons in Hv as [->|Hv]; [discriminate|].
    apply elem_of_cons in Hv as [->|Hv]; [discriminate|].
    apply elem_of_cons in Hv as [->|Hv]; [discriminate|].
    inversion Hv.
Defined.

Lemma calculate_ffg_rewards_small_deposits_witness :
  total_deposits Edges.cs_poor < WEI_PER_ETH /\
  calculate_ffg_rewards Scenario.cfg Edges.cs_poor Scenario.as2 Scenario.block5
  = Err ZeroDivisionError.
Proof.
  split; [reflexivity|].
  apply (calculate_ffg_rewards_small_deposits Scenario.cfg Edges.cs_poor
           Scenario.as2 Scenario.block5); reflexivity || discriminate.
Defined.

Lemma initialize_new_cycle_needs_witness :
  exists cs' act',
    initialize_new_cycle Scenario.cfg Scenario.cs0 Scenario.as1 Scenario.block3
      = Ok (cs', act') /\
    cycle_length Scenario.cfg
      <= Z.of_nat (length (recent_block_hashes Scenario.as1)) /\
    total_deposits Scenario.cs0 > 0 /\
    slot_duration Scenario.cfg <> 0.
Proof.
  destruct (initialize_new_cycle Scenario.cfg Scenario.cs0 Scenario.as1
                                 Scenario.block3)
    as [[cs' act']|e] eqn:Hrun; [|vm_compute in Hrun; discriminate].
  exists cs', act'. split; [reflexivity|].
  apply (initialize_new_cycle_needs Scenario.cfg Scenario.cs0 Scenario.as1
           Scenario.block3 cs' act' Hrun).
Defined.

Lemma ready_for_dynasty_transition_spec_witness :
  ready_for_dynasty_transition Scenario.cfg Edges.cs_ready Scenario.block5
    = true /\
  last_finalized_slot Edges.cs_ready > dynasty_start Edges.cs_ready /\
  forall shard record sc,
    crosslink_records Edges.cs_ready !! shard = Some record ->
    sc ∈ concat (shard_and_committee_for_slots Edges.cs_ready) ->
    sc_shard_id sc = shard ->
    crosslink_slot record > dynasty_start Edges.cs_ready.
Proof.
  assert (Hready : ready_for_dynasty_transition Scenario.cfg Edges.cs_ready
                     Scenario.block5 = true) by reflexivity.
  split; [exact Hready|].
  apply (proj1 (ready_for_dynasty_transition_spec Scenario.cfg Edges.cs_ready
                  Scenario.block5)) in Hready.
  exact (proj2 Hready).
Defined.

Lemma dynasty_transition_not_ready_again_witness :
  exists cs',
    compute_dynasty_transition Scenario.cfg Edges.cs_ready Scenario.block5
      = Ok cs' /\
    current_dynasty cs' = 2 /\
    dynasty_start cs' = 2 /\
    ready_for_dynasty_transition Scenario.cfg cs' Scenario.block6 = false.
Proof.
  destruct (compute_dynasty_transition Scenario.cfg Edges.cs_ready
                                       Scenario.block5)
    as [cs'|e] eqn:Hrun; [|vm_compute in Hrun; discriminate].
  exists cs'. split; [reflexivity|].
  apply (dynasty_transition_not_ready_again Scenario.cfg Edges.cs_ready
           Scenario.block5 cs' Scenario.block6); [discriminate | exact Hrun].
Defined.

Lemma cycle_iteration_keeps_committees_witness :
  exists cs' act',
    cycle_iteration Scenario.cfg Scenario.cs0 Scenario.as1 Scenario.block3
      = Ok (cs', act') /\
    shard_and_committee_for_slots cs' !! 1%nat =
    shard_and_committee_for_slots Scenario.cs0 !! 3%nat.
Proof.
  destruct (cycle_iteration Scenario.cfg Scenario.cs0 Scenario.as1
                            Scenario.block3)
    as [[cs' act']|e] eqn:Hrun; [|vm_compute in Hrun; discriminate].
  exists cs', act'. split; [reflexivity|].
  apply (cycle_iteration_keeps_committees Scenario.cfg Scenario.cs0
           Scenario.as1 Scenario.block3 cs' act'); reflexivity || exact Hrun.
Defined.

Lemma crosslink_records_change_by_promotion_witness :
  exists out,
    process_updated_crosslinks Scenario.cfg Scenario.cs0 Scenario.as1
                               Scenario.block3 = Ok out /\
    forall s r r',
      crosslink_records Scenario.cs0 !! s = Some r -> out !! s = Some r' ->
      dynasty r <= dynasty r' /\
      (dynasty r <= current_dynasty Scenario.cs0 ->
       dynasty r' <= current_dynasty Scenario.cs0).
Proof.
  destruct (process_updated_crosslinks Scenario.cfg Scenario.cs0 Scenario.as1
                                       Scenario.block3)
    as [out|e] eqn:Hrun; [|vm_compute in Hrun; discriminate].
  exists out. split; [reflexivity|].
  apply (crosslink_records_change_by_promotion Scenario.cfg Scenario.cs0
           Scenario.as1 Scenario.block3 out Hrun).
Defined.

End MoreOnSmallChain2.
